(** * Soporte Sistemas: the live voice session manager

    A shallow embedding of [src/services/liveManager.ts] (class
    [LiveManager], first revision in the file) and of the records of
    [src/types.ts], with the properties of the playback cursor, the tool
    dispatcher, the two text parsers and [disconnect]; then [connect], the
    session callbacks, the capture volume and the rings of
    [src/components/Visualizer.tsx].

    Conventions of the embedding.
    - A JavaScript string is the list of its UTF-16 code units ([jsstring]);
      the regular expressions and [trim] of the source are written out as
      functions on code units.
    - A JavaScript number is a rational ([Q]): arithmetic is exact, there is
      no rounding, NaN or infinity.
    - The manager's fields, the effects it performs on its collaborators
      (callbacks, remote channel, audio graph, console), the reactions queued
      on [sessionPromise] and the pending text-generation requests are
      threaded through a state monad [M] over [World]. *)

From Stdlib Require Import Ascii String QArith Qround Qminmax Lqa.
From stdpp Require Import base option list strings gmap.

Set Default Proof Using "Type".
Local Open Scope N_scope.

(* ===================================================================== *)
(** ** JavaScript strings *)
(* ===================================================================== *)

Module JsString.

Abbreviation jsstring := (list N).

(** A literal of the source whose characters are all ASCII. *)
Definition lit (s : string) : jsstring :=
  map Ascii.N_of_ascii (String.list_ascii_of_string s).

(** Line terminators: the characters [.] does not match (LF, CR, LS, PS). *)
Definition isLineTerminator (c : N) : bool :=
  (c =? 10) || (c =? 13) || (c =? 8232) || (c =? 8233).

(** The class [\s], which is also what [String.prototype.trim] strips:
    TAB, LF, VT, FF, CR, SP, NBSP, U+1680, U+2000..U+200A, LS, PS, U+202F,
    U+205F, U+3000 and U+FEFF. *)
Definition isWhiteSpace (c : N) : bool :=
  ((9 <=? c) && (c <=? 13)) || (c =? 32) || (c =? 160) || (c =? 5760)
  || ((8192 <=? c) && (c <=? 8202)) || (c =? 8232) || (c =? 8233)
  || (c =? 8239) || (c =? 8287) || (c =? 12288) || (c =? 65279).

Fixpoint takeWhile (p : N → bool) (s : jsstring) : jsstring :=
  match s with
  | c :: r => if p c then c :: takeWhile p r else []
  | [] => []
  end.

Fixpoint dropWhile (p : N → bool) (s : jsstring) : jsstring :=
  match s with
  | c :: r => if p c then dropWhile p r else s
  | [] => []
  end.

Definition trimStart (s : jsstring) : jsstring := dropWhile isWhiteSpace s.
Definition trimEnd (s : jsstring) : jsstring := rev (dropWhile isWhiteSpace (rev s)).

(** [s.trim()] *)
Definition trim (s : jsstring) : jsstring := trimEnd (trimStart s).

(** [s.split('\n')]: never empty, [''.split('\n')] is [['']]. *)
Fixpoint split_nl (s : jsstring) : list jsstring :=
  match s with
  | [] => [[]]
  | c :: r =>
      if c =? 10 then [] :: split_nl r
      else match split_nl r with
           | l :: ls => (c :: l) :: ls
           | [] => [[c]]
           end
  end.

(** Canonicalisation of the [i] flag (no [u] flag) for the letters that
    occur in the source's patterns: an ASCII letter matches itself in either
    case, and no character outside ASCII folds to an ASCII one. *)
Definition eq_ci (p c : N) : bool :=
  (c =? p)
  || ((65 <=? p) && (p <=? 90) && (c =? p + 32))
  || ((97 <=? p) && (p <=? 122) && (c + 32 =? p)).

(** Match the literal [pat] at the start of [s], ignoring case; the result is
    what follows the match. *)
Fixpoint stripPrefix_ci (pat s : jsstring) : option jsstring :=
  match pat, s with
  | [], _ => Some s
  | p :: pat', c :: s' => if eq_ci p c then stripPrefix_ci pat' s' else None
  | _ :: _, [] => None
  end.

(** Decimal digits of a natural number, most significant first. *)
Fixpoint digits (fuel : nat) (n : N) (acc : jsstring) : jsstring :=
  let acc' := (48 + n mod 10) :: acc in
  match fuel with
  | O => acc'
  | S fuel' => if n / 10 =? 0 then acc' else digits fuel' (n / 10) acc'
  end.

(** [String(n)] for an integer [n]. *)
Definition Number_toString (n : Z) : jsstring :=
  let m := Z.to_N (Z.abs n) in
  (if (n <? 0)%Z then [45] else []) ++ digits (N.to_nat (N.log2 m)) m [].

Definition isDigit (c : N) : bool := (48 <=? c) && (c <=? 57).

End JsString.
Import JsString.

(* ===================================================================== *)
(** ** Records of [types.ts] and of the remote channel *)
(* ===================================================================== *)

(** [TicketData]; [ticketId] is the optional field [ticketId?: string]. *)
Record TicketData := mkTicketData {
  correo : jsstring;
  municipalidad : jsstring;
  sistema : jsstring;
  descripcion : jsstring;
  timestamp : jsstring;
  ticketId : option jsstring
}.

Record EmailDraft := mkEmailDraft { subject : jsstring; body : jsstring }.

(** The object handed to [onSolutionsReady]. *)
Record SolutionData := mkSolutionData { title : jsstring; steps : list jsstring }.

(** One entry of [msg.toolCall.functionCalls]. The tool declarations give
    every argument the type [Type.STRING], so [args] maps property names to
    strings; a property that is absent is [undefined]. *)
Record FunctionCall := mkFunctionCall {
  fc_id : jsstring;
  fc_name : jsstring;
  fc_args : gmap string jsstring
}.

(** The [functionResponses] object of [session.sendToolResponse]. *)
Record FunctionResponse := mkFunctionResponse {
  fr_id : jsstring;
  fr_name : jsstring;
  fr_result : jsstring
}.

(** What [onmessage] reads of a [LiveServerMessage]:
    [msg.toolCall.functionCalls],
    [msg.serverContent?.modelTurn?.parts?.[0]?.inlineData?.data] and
    [msg.serverContent?.interrupted]. *)
Record LiveServerMessage := mkMessage {
  toolCall : option (list FunctionCall);
  audioData : option jsstring;
  interrupted : bool
}.

(** A value interpolated in a template literal: [undefined] prints as the
    word. *)
Definition interpolate (v : option jsstring) : jsstring :=
  default (lit "undefined") v.

(** [v || ''] for a string or [undefined]: the empty string is falsy too. *)
Definition orEmpty (v : option jsstring) : jsstring :=
  match v with
  | Some (c :: s) => c :: s
  | Some [] | None => []
  end.

(** Truthiness of a string or [undefined]. *)
Definition truthy (v : option jsstring) : bool :=
  match v with
  | Some (_ :: _) => true
  | Some [] | None => false
  end.

(* ===================================================================== *)
(** ** Effects, manager state and the monad *)
(* ===================================================================== *)

(** The two prompts sent to [ai.models.generateContent]; a prompt is
    determined by the values interpolated in its template. *)
Inductive Prompt :=
  | TipsPrompt (system description : option jsstring)
  | EmailPrompt (uiTicket : TicketData).

(** What the manager does to the outside, in the order it does it. *)
Inductive Effect :=
  | ConsoleLog (what : string)
  | ConsoleError (what : string)
  | OnTicketCreated (ticket : TicketData)
  | OnEmailReady (draft : EmailDraft)
  | OnSolutionsReady (solutions : SolutionData)
  | OnError (message : jsstring)
  | OnClose
  | SendToolResponse (functionResponses : FunctionResponse)
  | GenerateContent (contents : Prompt)
  | SourceStart (when duration : Q)
  | SessionClose
  | ProcessorDisconnect
  | InputSourceDisconnect
  | TrackStop (track : nat)
  | AudioContextClose.

(** The closures pushed on [cleanupFunctions]; [connect] registers only
    [() => { sessionPromise.then(s => s.close()) }]. *)
Inductive Cleanup := CloseSession.

(** The private fields of [LiveManager]. A handle is [None] when the field
    is [null]; [stream] holds the tracks of the media stream. *)
Record LiveManager := mkLiveManager {
  audioContext : option unit;
  stream : option (list nat);
  processor : option unit;
  inputSource : option unit;
  nextStartTime : Q;
  cleanupFunctions : list Cleanup
}.

(** [new LiveManager()] *)
Definition newLiveManager : LiveManager :=
  mkLiveManager None None None None 0%Q [].

(** An [async] method suspended at [await ai.models.generateContent]. *)
Inductive Pending :=
  | AwaitTips (system : option jsstring)
  | AwaitEmail (uiTicket : TicketData) (toolId toolName : jsstring).

(** How the awaited request settles; [response.text] may be [undefined]. *)
Inductive GenResult :=
  | Fulfilled (text : option jsstring)
  | Rejected.

(** What the environment answers. [reads] counts the answers given so far,
    so that every read may see a new value. [bufferDuration] is
    [buffer.duration] of [decodeAudioData(decodeBase64(data), ctx)], from
    [audioUtils], which is not part of the sources. *)
Record Env := mkEnv {
  Math_random : nat → Q;
  Date_toISOString : nat → jsstring;
  currentTime : nat → Q;
  bufferDuration : jsstring → Q
}.

Record World := mkWorld {
  this : LiveManager;
  env : Env;
  reads : nat;
  log : list Effect;          (* effects performed, oldest first *)
  reactions : list Effect;    (* queued by [sessionPromise.then], not yet run *)
  pending : list Pending      (* suspended at [generateContent], oldest first *)
}.

Definition M (A : Type) : Type := World → A * World.

Definition ret {A} (a : A) : M A := λ w, (a, w).
Definition bind {A B} (m : M A) (k : A → M B) : M B :=
  λ w, let (a, w') := m w in k a w'.

Declare Scope M_scope.
Delimit Scope M_scope with M.
Bind Scope M_scope with M.
Notation "'let*' x := m 'in' k" := (bind m (λ x, k))
  (at level 10, x name, m at level 100, k at level 200,
   format "'[v' 'let*'  x  :=  m  'in' '/' k ']'") : M_scope.
Notation "m >> k" := (bind m (λ _, k))
  (at level 100, k at level 200, right associativity) : M_scope.
Local Open Scope M_scope.

Definition exec {A} (m : M A) (w : World) : World := (m w).2.

Definition getThis : M LiveManager := λ w, (this w, w).
Definition setThis (t : LiveManager) : M unit :=
  λ w, (tt, mkWorld t (env w) (reads w) (log w) (reactions w) (pending w)).
Definition readEnv {A} (f : Env → nat → A) : M A :=
  λ w, (f (env w) (reads w),
        mkWorld (this w) (env w) (S (reads w)) (log w) (reactions w) (pending w)).
Definition askEnv {A} (f : Env → A) : M A := λ w, (f (env w), w).
Definition perform (e : Effect) : M unit :=
  λ w, (tt, mkWorld (this w) (env w) (reads w) (log w ++ [e]) (reactions w) (pending w)).

(** [sessionPromise.then(session => ...)]: the reaction is queued and runs
    at the next microtask checkpoint. The session promise is fulfilled:
    [onmessage] is only called on an open session. *)
Definition sessionThen (e : Effect) : M unit :=
  λ w, (tt, mkWorld (this w) (env w) (reads w) (log w) (reactions w ++ [e]) (pending w)).

(** [await ai.models.generateContent(...)]: the request is issued and the
    method is suspended until the request settles, in a later task. *)
Definition awaitGenerateContent (p : Prompt) (k : Pending) : M unit :=
  perform (GenerateContent p) >>
  λ w, (tt, mkWorld (this w) (env w) (reads w) (log w) (reactions w) (pending w ++ [k])).

(** A microtask checkpoint: the queued reactions run, oldest first. *)
Definition drain : M unit :=
  λ w, (tt, mkWorld (this w) (env w) (reads w) (log w ++ reactions w) [] (pending w)).

Fixpoint forEach {A} (f : A → M unit) (l : list A) : M unit :=
  match l with
  | [] => ret tt
  | x :: l' => f x >> forEach f l'
  end.

Definition set_nextStartTime (t : Q) : M unit :=
  let* m := getThis in
  setThis (mkLiveManager (audioContext m) (stream m) (processor m)
             (inputSource m) t (cleanupFunctions m)).

(* ===================================================================== *)
(** ** The two parsers of generated text *)
(* ===================================================================== *)

Definition notLineTerminator (c : N) : bool := negb (isLineTerminator c).

(** The bullet class [[-*•]]. *)
Definition isBullet (c : N) : bool := (c =? 45) || (c =? 42) || (c =? 8226).

(** [line.replace(/^[-*•]\s*/, '')] *)
Definition stripBullet (line : jsstring) : jsstring :=
  match line with
  | c :: r => if isBullet c then dropWhile isWhiteSpace r else line
  | [] => []
  end.

(** The [steps] of [generateTroubleshootingTips]:
    [text.split('\n').map(line => line.replace(/^[-*•]\s*/, '').trim())
         .filter(line => line.length > 0).slice(0, 3)] *)
Definition parseSteps (text : jsstring) : list jsstring :=
  take 3
    (filter (λ line : jsstring, (0 < length line)%nat)
       (map (λ line, trim (stripBullet line)) (split_nl text))).

(** Group 1 of [fullText.match(re)], [None] when there is no match, for the
    case-insensitive pattern [re]: start of text, [Asunto:], [\s*], then the
    capture group "dot star". [\s*] is greedy and the group accepts any rest,
    so the first attempt succeeds: all white space after the marker is
    skipped, line terminators included, and the group runs up to the next
    line terminator. *)
Definition matchSubject (fullText : jsstring) : option jsstring :=
  match stripPrefix_ci (lit "Asunto:") fullText with
  | Some rest => Some (takeWhile notLineTerminator (dropWhile isWhiteSpace rest))
  | None => None
  end.

(** [fullText.replace(/^Asunto:.*\n+/i, '')]. [.*] runs up to the first line
    terminator; the pattern matches only when that terminator is a line feed
    (giving back characters of [.*] never exposes one), and then [\n+] takes
    every line feed that follows. Without a match the text is unchanged. *)
Definition replaceSubjectLine (fullText : jsstring) : jsstring :=
  match stripPrefix_ci (lit "Asunto:") fullText with
  | Some rest =>
      match dropWhile notLineTerminator rest with
      | c :: after => if c =? 10 then dropWhile (λ c, c =? 10) after else fullText
      | [] => fullText
      end
  | None => fullText
  end.

(** Lines 300-308 of [generateEmailDraft]: subject and body of the draft. *)
Definition parseEmailDraft (uiTicket : TicketData) (fullText : jsstring) : EmailDraft :=
  let subjectMatch := matchSubject fullText in
  let subject :=
    lit "Ticket " ++ interpolate (ticketId uiTicket)
      ++ lit " - Soporte " ++ municipalidad uiTicket in
  let body := fullText in
  match subjectMatch with
  | Some group1 => mkEmailDraft (trim group1) (trim (replaceSubjectLine fullText))
  | None => mkEmailDraft subject body
  end.

(* ===================================================================== *)
(** ** The methods of [LiveManager] *)
(* ===================================================================== *)

(** [generateTroubleshootingTips], up to its [await]. *)
Definition generateTroubleshootingTips (system description : option jsstring) : M unit :=
  awaitGenerateContent (TipsPrompt system description) (AwaitTips system).

(** [generateTroubleshootingTips], from its [await] on. *)
Definition generateTroubleshootingTips_resume
    (system : option jsstring) (response : GenResult) : M unit :=
  match response with
  | Fulfilled text =>
      let text := orEmpty text in
      let steps := parseSteps text in
      if decide (0 < length steps)%nat then
        perform (OnSolutionsReady
          (mkSolutionData (lit "Posibles Soluciones: " ++ interpolate system) steps))
      else ret tt
  | Rejected => perform (ConsoleError "Error generating tips")
  end.

(** [generateEmailDraft], up to its [await]. *)
Definition generateEmailDraft (uiTicket : TicketData) (toolId toolName : jsstring) : M unit :=
  awaitGenerateContent (EmailPrompt uiTicket) (AwaitEmail uiTicket toolId toolName).

(** [generateEmailDraft], from its [await] on. *)
Definition generateEmailDraft_resume
    (uiTicket : TicketData) (toolId toolName : jsstring) (response : GenResult) : M unit :=
  match response with
  | Fulfilled text =>
      let fullText := orEmpty text in
      perform (OnEmailReady (parseEmailDraft uiTicket fullText)) >>
      sessionThen (SendToolResponse (mkFunctionResponse toolId toolName
        (lit "Ticket registrado exitosamente. ID del Ticket: "
           ++ interpolate (ticketId uiTicket)
           ++ lit ". Borrador de correo generado.")))
  | Rejected =>
      perform (ConsoleError "Error generating email content:") >>
      sessionThen (SendToolResponse (mkFunctionResponse toolId toolName
        (lit "Error generando borrador, pero el ticket "
           ++ interpolate (ticketId uiTicket)
           ++ lit " fue registrado.")))
  end.

(** ['T-' + Math.floor(10000 + Math.random() * 90000)] *)
Definition makeTicketId (random : Q) : jsstring :=
  lit "T-" ++ Number_toString (Qfloor (10000 + random * 90000)).

(** The object literal [uiTicket] of the [registerSupportTicket] branch. *)
Definition makeTicket (args : gmap string jsstring) (timestamp ticketId : jsstring)
    : TicketData :=
  mkTicketData (orEmpty (args !! "correo")) (orEmpty (args !! "municipalidad"))
    (orEmpty (args !! "sistema")) (orEmpty (args !! "descripcion"))
    timestamp (Some ticketId).

(** The body of [for (const fc of msg.toolCall.functionCalls)]. *)
Definition dispatch (fc : FunctionCall) : M unit :=
  if decide (fc_name fc = lit "analyzeProblem") then
    let args := fc_args fc in
    perform (ConsoleLog "Analyzing problem:") >>
    sessionThen (SendToolResponse (mkFunctionResponse (fc_id fc) (fc_name fc)
      (lit "Solutions generated and displayed on screen."))) >>
    generateTroubleshootingTips (args !! "sistema") (args !! "problemDescription")
  else if decide (fc_name fc = lit "registerSupportTicket") then
    let args := fc_args fc in
    let* timestamp := readEnv Date_toISOString in
    let* random := readEnv Math_random in
    let ticketId := makeTicketId random in
    let uiTicket := makeTicket args timestamp ticketId in
    perform (OnTicketCreated uiTicket) >>
    generateEmailDraft uiTicket (fc_id fc) (fc_name fc)
  else ret tt.

(** The audio branch of [onmessage]. At [await decodeAudioData] the
    reactions queued so far run before the handler goes on. *)
Definition handleAudio (audioData : jsstring) : M unit :=
  let* now := readEnv currentTime in
  let* m := getThis in
  set_nextStartTime (Qmax (nextStartTime m) now) >>
  drain >>
  let* duration := askEnv (λ e, bufferDuration e audioData) in
  let* m := getThis in
  perform (SourceStart (nextStartTime m) duration) >>
  set_nextStartTime (nextStartTime m + duration).

(** The interruption branch of [onmessage]:
    [this.nextStartTime = this.audioContext ? this.audioContext.currentTime : 0] *)
Definition handleInterruption : M unit :=
  let* m := getThis in
  match audioContext m with
  | Some _ => let* now := readEnv currentTime in set_nextStartTime now
  | None => set_nextStartTime 0
  end.

(** The [onmessage] callback. *)
Definition onmessage (msg : LiveServerMessage) : M unit :=
  match toolCall msg with
  | Some functionCalls => forEach dispatch functionCalls
  | None => ret tt
  end >>
  (let* m := getThis in
   if truthy (audioData msg) && bool_decide (is_Some (audioContext m))
   then handleAudio (orEmpty (audioData msg))
   else ret tt) >>
  if interrupted msg then handleInterruption else ret tt.

(** [disconnect] *)
Definition disconnect : M unit :=
  let* m := getThis in
  forEach (λ fn, match fn with CloseSession => sessionThen SessionClose end)
    (cleanupFunctions m) >>
  setThis (mkLiveManager (audioContext m) (stream m) (processor m)
             (inputSource m) (nextStartTime m) []) >>
  match processor m with Some _ => perform ProcessorDisconnect | None => ret tt end >>
  match inputSource m with Some _ => perform InputSourceDisconnect | None => ret tt end >>
  match stream m with
  | Some tracks => forEach (λ t, perform (TrackStop t)) tracks
  | None => ret tt
  end >>
  match audioContext m with Some _ => perform AudioContextClose | None => ret tt end >>
  let* m := getThis in
  setThis (mkLiveManager None None None None (nextStartTime m) (cleanupFunctions m)).

(** The [onclose] callback of the session. *)
Definition onclose : M unit := disconnect >> perform OnClose.

(** The [onerror] callback of the session. *)
Definition onerror : M unit :=
  perform (ConsoleError "Gemini Error:") >>
  perform (OnError (lit "Error de conexi" ++ [243]
                      ++ lit "n con el servidor de IA. Verifique su red.")) >>
  disconnect >>
  perform OnClose.

(* ===================================================================== *)
(** ** The event loop *)
(* ===================================================================== *)

(** One task of the event loop: the callback runs, then the reactions it
    queued. *)
Definition task (callback : M unit) : M unit := callback >> drain.

(** A task whose callback answers whether it is suspended. *)
Definition task_bool (callback : M bool) : M bool :=
  let* b := callback in drain >> ret b.

(** The continuation of a suspended method. *)
Definition resume (k : Pending) (response : GenResult) : M unit :=
  match k with
  | AwaitTips system => generateTroubleshootingTips_resume system response
  | AwaitEmail uiTicket toolId toolName =>
      generateEmailDraft_resume uiTicket toolId toolName response
  end.

(** The [i]-th pending request settles: its method is resumed in a task of
    its own. Nothing happens when there is no such request. *)
Definition settle (i : nat) (response : GenResult) : M unit :=
  λ w, match pending w !! i with
       | Some k =>
           task (resume k response)
             (mkWorld (this w) (env w) (reads w) (log w) (reactions w)
                (delete i (pending w)))
       | None => (tt, w)
       end.

(* ===================================================================== *)
(** ** Tool calls as they are received *)
(* ===================================================================== *)

(** One entry of [msg.toolCall.functionCalls] as the channel delivers it:
    the call may come without an [args] object. [onmessage] casts [fc.args]
    to [any]; with [args] undefined, the first read of one of its properties
    throws a [TypeError]. *)
Record ReceivedCall := mkReceivedCall {
  rc_id : jsstring;
  rc_name : jsstring;
  rc_args : option (gmap string jsstring)
}.

(** How a stretch of the handler ends. *)
Inductive Completion :=
  | Completed
  | ThrewTypeError.

(** The body of [for (const fc of msg.toolCall.functionCalls)] on a call as
    received. With an [args] object it is [dispatch]. Without one, the
    [analyzeProblem] branch logs, queues its acknowledgement and throws at
    [args.sistema] (line 170); the [registerSupportTicket] branch reads the
    date and the random number and throws at [args.correo] (line 180),
    before [onTicketCreated]. *)
Definition dispatchReceived (rc : ReceivedCall) : M Completion :=
  match rc_args rc with
  | Some args =>
      dispatch (mkFunctionCall (rc_id rc) (rc_name rc) args) >> ret Completed
  | None =>
      if decide (rc_name rc = lit "analyzeProblem") then
        perform (ConsoleLog "Analyzing problem:") >>
        sessionThen (SendToolResponse (mkFunctionResponse (rc_id rc) (rc_name rc)
          (lit "Solutions generated and displayed on screen."))) >>
        ret ThrewTypeError
      else if decide (rc_name rc = lit "registerSupportTicket") then
        let* timestamp := readEnv Date_toISOString in
        let* random := readEnv Math_random in
        ret ThrewTypeError
      else ret Completed
  end.

(** The loop over the calls: an exception leaves it. *)
Fixpoint forEachReceived (calls : list ReceivedCall) : M Completion :=
  match calls with
  | [] => ret Completed
  | rc :: rest =>
      let* completion := dispatchReceived rc in
      match completion with
      | Completed => forEachReceived rest
      | ThrewTypeError => ret ThrewTypeError
      end
  end.

(** [onmessage] on a message as received: an exception in the loop over the
    calls rejects the promise of the handler, and neither the audio nor the
    interruption of the message is handled. *)
Definition onmessageReceived (calls : option (list ReceivedCall))
    (audioData : option jsstring) (interrupted : bool) : M Completion :=
  let* completion :=
    match calls with
    | Some functionCalls => forEachReceived functionCalls
    | None => ret Completed
    end in
  match completion with
  | Completed => onmessage (mkMessage None audioData interrupted) >> ret Completed
  | ThrewTypeError => ret ThrewTypeError
  end.

(* ===================================================================== *)
(** ** Vocabulary of the properties *)
(* ===================================================================== *)

(** The effects of releasing the handles, in the order of [disconnect]. *)
Definition releases (m : LiveManager) : list Effect :=
  match processor m with Some _ => [ProcessorDisconnect] | None => [] end
  ++ match inputSource m with Some _ => [InputSourceDisconnect] | None => [] end
  ++ match stream m with Some tracks => map TrackStop tracks | None => [] end
  ++ match audioContext m with Some _ => [AudioContextClose] | None => [] end.

(** A message that carries one audio segment and nothing else. *)
Definition audioMessage (data : jsstring) : LiveServerMessage :=
  mkMessage None (Some data) false.

(** The clock reading and the duration met by each segment of a run that
    starts at the [tick]-th answer of the environment: every audio message
    reads the clock once. *)
Fixpoint arrivals (e : Env) (tick : nat) (segments : list jsstring) : list (Q * Q) :=
  match segments with
  | [] => []
  | data :: rest =>
      (currentTime e tick, bufferDuration e data) :: arrivals e (S tick) rest
  end.

(** The schedule in the words of the specification: each segment, given as
    (clock reading, duration), starts at the maximum of the cursor and the
    clock, and the cursor then advances by the duration. The result lists
    (start, duration). *)
Fixpoint spec_schedule (cursor : Q) (segments : list (Q * Q)) : list (Q * Q) :=
  match segments with
  | [] => []
  | (now, duration) :: rest =>
      let start := Qmax cursor now in
      (start, duration) :: spec_schedule (start + duration) rest
  end.

(** The cursor after that schedule. *)
Fixpoint spec_cursor (cursor : Q) (segments : list (Q * Q)) : Q :=
  match segments with
  | [] => cursor
  | (now, duration) :: rest => spec_cursor (Qmax cursor now + duration) rest
  end.

(** Each start is at least the previous start, and at least the previous
    start plus the previous duration. *)
Fixpoint sequential (schedule : list (Q * Q)) : Prop :=
  match schedule with
  | [] => True
  | (start, duration) :: rest =>
      match rest with
      | [] => True
      | (next, _) :: _ => (start <= next)%Q ∧ (start + duration <= next)%Q
      end ∧ sequential rest
  end.

Definition startEffects (schedule : list (Q * Q)) : list Effect :=
  map (λ p, SourceStart p.1 p.2) schedule.

(** A message that carries the interruption signal and nothing else. *)
Definition interruptionMessage : LiveServerMessage := mkMessage None None true.

(** The same message without its interruption signal. *)
Definition withoutInterruption (msg : LiveServerMessage) : LiveServerMessage :=
  mkMessage (toolCall msg) (audioData msg) false.

(** An environment for the examples: the random source answers 1/2, the
    audio clock advances by 5 from one reading to the next, every segment
    lasts 2 seconds. *)
Definition demoEnv : Env :=
  mkEnv (λ _, 1 # 2)%Q (λ _, lit "2024-05-01T12:00:00.000Z")
    (λ n, inject_Z (5 * Z.of_nat (S n))) (λ _, 2%Q).

(** A connected manager with one capture track and the session's cleanup
    registered, before any message. *)
Definition demoWorld : World :=
  mkWorld (mkLiveManager (Some ()) (Some [0%nat]) (Some ()) (Some ()) 0%Q [CloseSession])
    demoEnv 0 [] [] [].

(** A message that carries one tool call and nothing else. *)
Definition toolCallMessage (fc : FunctionCall) : LiveServerMessage :=
  mkMessage (Some [fc]) None false.

(** The ticket that a [registerSupportTicket] call builds when it is
    dispatched in [w]: the time stamp is the next answer of the environment,
    the random number the one after it. *)
Definition ticketOf (w : World) (fc : FunctionCall) : TicketData :=
  makeTicket (fc_args fc) (Date_toISOString (env w) (reads w))
    (makeTicketId (Math_random (env w) (S (reads w)))).

(** [T-] followed by exactly five decimal digits. *)
Definition isTicketId (s : jsstring) : bool :=
  match s with
  | t :: dash :: ds =>
      (t =? 84) && (dash =? 45) && (length ds =? 5)%nat && forallb isDigit ds
  | _ => false
  end.

(** The tool responses among some effects, in order. *)
Definition toolResponses (effects : list Effect) : list FunctionResponse :=
  omap (λ e, match e with SendToolResponse r => Some r | _ => None end) effects.

Definition isErrorEvent (e : Effect) : bool :=
  match e with OnError _ => true | _ => false end.

Definition isEmailReady (e : Effect) : bool :=
  match e with OnEmailReady _ => true | _ => false end.

(** The acknowledgement of an [analyzeProblem] call. *)
Definition analyzeAck (fc : FunctionCall) : FunctionResponse :=
  mkFunctionResponse (fc_id fc) (fc_name fc)
    (lit "Solutions generated and displayed on screen.").

(** What [generateTroubleshootingTips] does once its request has settled. *)
Definition tipsOutcome (system : option jsstring) (response : GenResult) : list Effect :=
  match response with
  | Fulfilled text =>
      match parseSteps (orEmpty text) with
      | [] => []
      | steps =>
          [OnSolutionsReady
             (mkSolutionData (lit "Posibles Soluciones: " ++ interpolate system) steps)]
      end
  | Rejected => [ConsoleError "Error generating tips"]
  end.

(** What [generateEmailDraft] does once its request has settled. *)
Definition draftOutcome (uiTicket : TicketData) (toolId toolName : jsstring)
    (response : GenResult) : list Effect :=
  match response with
  | Fulfilled text =>
      [OnEmailReady (parseEmailDraft uiTicket (orEmpty text));
       SendToolResponse (mkFunctionResponse toolId toolName
         (lit "Ticket registrado exitosamente. ID del Ticket: "
            ++ interpolate (ticketId uiTicket)
            ++ lit ". Borrador de correo generado."))]
  | Rejected =>
      [ConsoleError "Error generating email content:";
       SendToolResponse (mkFunctionResponse toolId toolName
         (lit "Error generando borrador, pero el ticket "
            ++ interpolate (ticketId uiTicket)
            ++ lit " fue registrado."))]
  end.

(** Two tool calls for the examples. *)
Definition demoAnalyze : FunctionCall :=
  mkFunctionCall (lit "call-1") (lit "analyzeProblem")
    {[ "sistema" := lit "bodega"; "problemDescription" := lit "no abre" ]}.

Definition demoRegister : FunctionCall :=
  mkFunctionCall (lit "call-2") (lit "registerSupportTicket")
    {[ "correo" := lit "ana@example.cl"; "sistema" := lit "bodega";
       "descripcion" := [] ]}.

(** The steps in the words of the specification: the lines are taken in
    order; each has its leading bullet marker stripped and is trimmed; a line
    that is empty after that is passed over; the list stops at [limit]
    steps. *)
Fixpoint spec_steps (limit : nat) (lines : list jsstring) : list jsstring :=
  match lines with
  | [] => []
  | line :: rest =>
      match limit with
      | O => []
      | S limit' =>
          match trim (stripBullet line) with
          | [] => spec_steps limit rest
          | c :: s => (c :: s) :: spec_steps limit' rest
          end
      end
  end.




(** The draft in the words of the specification, for the text [fullText]:
    when it begins with the marker, the subject is the remainder of the
    first line, trimmed, and the body is the text without its first line;
    otherwise the subject is synthesised and the body is the text. Lines end
    at a line feed. *)
Definition spec_draft (uiTicket : TicketData) (fullText : jsstring) : EmailDraft :=
  let notLineFeed := λ c, negb (c =? 10) in
  match stripPrefix_ci (lit "Asunto:") fullText with
  | Some rest =>
      mkEmailDraft (trim (takeWhile notLineFeed rest))
        (drop 1 (dropWhile notLineFeed rest))
  | None =>
      mkEmailDraft
        (lit "Ticket " ++ interpolate (ticketId uiTicket)
           ++ lit " - Soporte " ++ municipalidad uiTicket)
        fullText
  end.

(** The ticket of the specification's example. *)
Definition exampleTicket : TicketData :=
  mkTicketData (lit "ana@example.cl") (lit "ExampleCity") (lit "bodega")
    (lit "no abre") (lit "2024-05-01T12:00:00.000Z") (Some (lit "T-12345")).

(** ["Asunto: Falla en módulo\nEstimado..."] *)
Definition exampleText : jsstring :=
  lit "Asunto: Falla en m" ++ [243] ++ lit "dulo" ++ [10] ++ lit "Estimado...".

(* ===================================================================== *)
(** ** Connecting *)
(* ===================================================================== *)

(** The message of the inner [catch] of [connect], chosen by [err.name]. *)
Definition micErrorMessage (name : jsstring) : jsstring :=
  if decide (name = lit "NotAllowedError" ∨ name = lit "PermissionDeniedError") then
    lit "Permiso de micr" ++ [243] ++ lit "fono denegado. Por favor act" ++ [237]
      ++ lit "velo en su navegador."
  else if decide (name = lit "NotFoundError") then
    lit "No se encontr" ++ [243] ++ lit " ning" ++ [250]
      ++ lit "n dispositivo de micr" ++ [243] ++ lit "fono."
  else if decide (name = lit "NotReadableError") then
    lit "El micr" ++ [243] ++ lit "fono est" ++ [225]
      ++ lit " siendo usado por otra aplicaci" ++ [243] ++ lit "n."
  else lit "No se pudo acceder al micr" ++ [243] ++ lit "fono.".

(** [error.message || "No se pudo iniciar la sesión."] *)
Definition setupErrorMessage (message : option jsstring) : jsstring :=
  if truthy message then orEmpty message
  else lit "No se pudo iniciar la sesi" ++ [243] ++ lit "n.".

(** Whether the constructor of the output context (line 88) throws. *)
Inductive ContextOutcome :=
  | ContextThrows (message : option jsstring)
  | ContextCreated.

(** How [getUserMedia] settles: rejected with [err.name] and [err.message],
    or fulfilled with a stream of the given tracks. *)
Inductive MicOutcome :=
  | MicRejected (name : jsstring) (message : option jsstring)
  | MicGranted (tracks : list nat).

(** Where the set-up of the capture graph (lines 108-116) throws, if it
    does: before [inputSource] is assigned, before [processor] is assigned,
    or after both. Nothing after line 116 throws synchronously. *)
Inductive GraphOutcome :=
  | ThrowsBeforeInputSource (message : option jsstring)
  | ThrowsBeforeProcessor (message : option jsstring)
  | ThrowsAfterProcessor (message : option jsstring)
  | GraphDone.

Definition set_audioContext (h : option unit) : M unit :=
  let* m := getThis in
  setThis (mkLiveManager h (stream m) (processor m) (inputSource m)
             (nextStartTime m) (cleanupFunctions m)).

Definition set_stream (h : option (list nat)) : M unit :=
  let* m := getThis in
  setThis (mkLiveManager (audioContext m) h (processor m) (inputSource m)
             (nextStartTime m) (cleanupFunctions m)).

Definition set_inputSource (h : option unit) : M unit :=
  let* m := getThis in
  setThis (mkLiveManager (audioContext m) (stream m) (processor m) h
             (nextStartTime m) (cleanupFunctions m)).

Definition set_processor (h : option unit) : M unit :=
  let* m := getThis in
  setThis (mkLiveManager (audioContext m) (stream m) h (inputSource m)
             (nextStartTime m) (cleanupFunctions m)).

(** [this.cleanupFunctions.push(fn)] *)
Definition push_cleanup (fn : Cleanup) : M unit :=
  let* m := getThis in
  setThis (mkLiveManager (audioContext m) (stream m) (processor m) (inputSource m)
             (nextStartTime m) (cleanupFunctions m ++ [fn])).

(** The outer [catch] of [connect], lines 230-239. *)
Definition connect_catch (message : option jsstring) : M unit :=
  perform (ConsoleError "Connection setup failed:") >>
  (let* m := getThis in
   match stream m with
   | None => ret tt
   | Some _ => perform (OnError (setupErrorMessage message))
   end) >>
  disconnect >>
  perform OnClose.

(** [connect], up to [await navigator.mediaDevices.getUserMedia]; the result
    tells whether the method is suspended there. The email of the user only
    enters the system instruction handed to [ai.live.connect], which the log
    does not record. *)
Definition connect_begin (context : ContextOutcome) : M bool :=
  match context with
  | ContextThrows message => connect_catch message >> ret false
  | ContextCreated => set_audioContext (Some ()) >> ret true
  end.

(** [connect], from the settling of [getUserMedia] on. *)
Definition connect_resume (mic : MicOutcome) (graph : GraphOutcome) : M unit :=
  match mic with
  | MicRejected name message =>
      perform (OnError (micErrorMessage name)) >>
      connect_catch message
  | MicGranted tracks =>
      set_stream (Some tracks) >>
      match graph with
      | ThrowsBeforeInputSource message => connect_catch message
      | ThrowsBeforeProcessor message =>
          set_inputSource (Some ()) >> connect_catch message
      | ThrowsAfterProcessor message =>
          set_inputSource (Some ()) >> set_processor (Some ()) >> connect_catch message
      | GraphDone =>
          set_inputSource (Some ()) >> set_processor (Some ()) >>
          push_cleanup CloseSession
      end
  end.

(** [connect] when nothing else runs while it waits for the microphone. *)
Definition connect (context : ContextOutcome) (mic : MicOutcome) (graph : GraphOutcome)
    : M unit :=
  let* suspended := task_bool (connect_begin context) in
  if suspended then task (connect_resume mic graph) else ret tt.

(** The nodes of the capture graph that exist when its set-up throws. *)
Definition nodesBuilt (graph : GraphOutcome) : list Effect :=
  match graph with
  | ThrowsBeforeInputSource _ => []
  | ThrowsBeforeProcessor _ => [InputSourceDisconnect]
  | ThrowsAfterProcessor _ => [ProcessorDisconnect; InputSourceDisconnect]
  | GraphDone => []
  end.

Definition thrownMessage (graph : GraphOutcome) : option (option jsstring) :=
  match graph with
  | ThrowsBeforeInputSource m | ThrowsBeforeProcessor m | ThrowsAfterProcessor m => Some m
  | GraphDone => None
  end.

(** The tickets handed to [onTicketCreated] among some effects, in order. *)
Definition ticketsCreated (effects : list Effect) : list TicketData :=
  omap (λ e, match e with OnTicketCreated t => Some t | _ => None end) effects.

(** [w'] comes after [w] in a run that neither acquires nor releases a
    device: same handles, same cleanups, same environment; the log and the
    pending requests are only added to. *)
Definition sameSession (w w' : World) : Prop :=
  audioContext (this w') = audioContext (this w)
  ∧ stream (this w') = stream (this w)
  ∧ processor (this w') = processor (this w)
  ∧ inputSource (this w') = inputSource (this w)
  ∧ cleanupFunctions (this w') = cleanupFunctions (this w)
  ∧ env w' = env w
  ∧ log w `prefix_of` log w'
  ∧ pending w `prefix_of` pending w'.

(** Every segment, given as (clock reading, duration), is handled no later
    than the cursor stands when it is handled. *)
Fixpoint timely (cursor : Q) (segments : list (Q * Q)) : Prop :=
  match segments with
  | [] => True
  | (now, duration) :: rest => (now <= cursor)%Q ∧ timely (cursor + duration) rest
  end.

(** Segments played one right after the other from [start] on. *)
Fixpoint backToBack (start : Q) (durations : list Q) : list (Q * Q) :=
  match durations with
  | [] => []
  | duration :: rest => (start, duration) :: backToBack (start + duration) rest
  end.

(** What a suspended method performs once its request has settled. *)
Definition settleEffects (k : Pending) (response : GenResult) : list Effect :=
  match k with
  | AwaitTips system => tipsOutcome system response
  | AwaitEmail uiTicket toolId toolName => draftOutcome uiTicket toolId toolName response
  end.

(** No white space at either end. *)
Definition noOuterSpace (s : jsstring) : bool :=
  match s with
  | [] => true
  | c :: _ =>
      negb (isWhiteSpace c)
      && match last s with Some l => negb (isWhiteSpace l) | None => true end
  end.

(** The [onopen] callback, as far as the log records it. *)
Definition onopen : M unit := perform (ConsoleLog "Gemini Live Connected").

(* ===================================================================== *)
(** ** Capture volume and the visualiser *)
(* ===================================================================== *)

(** [dataArray.reduce((a, b) => a + b)]: without an initial value, [reduce]
    throws on an empty array ([None]). *)
Definition reduceSum (dataArray : list Z) : option Z :=
  match dataArray with
  | [] => None
  | first :: rest => Some (fold_left Z.add rest first)
  end.

(** The value handed to [onVolumeChange] by [onaudioprocess]:
    [avg / 255] with [avg = dataArray.reduce(...) / dataArray.length]. *)
Definition captureVolume (dataArray : list Z) : option Q :=
  match reduceSum dataArray with
  | Some sum =>
      let avg := (inject_Z sum / inject_Z (Z.of_nat (length dataArray)))%Q in
      Some (avg / 255)%Q
  | None => None
  end.

(** [Visualizer.tsx], the ring [i] of [draw]: [sine] stands for
    [Math.sin(time + i)]. The radius is the second argument of [ctx.arc]. *)
Definition ringRadius (volume : Q) (i : Z) (sine : Q) : Q :=
  let baseRadius := (30 + volume * 50)%Q in
  let offset := (inject_Z i * 20 + sine * 5)%Q in
  let radius := (baseRadius + offset)%Q in
  Qmax 0 radius.

(** [radius], the value that [Math.max(0, radius)] clamps. *)
Definition radiusBeforeClamp (volume : Q) (i : Z) (sine : Q) : Q :=
  (30 + volume * 50 + (inject_Z i * 20 + sine * 5))%Q.

(** [0.6 - (i * 0.2) - (volume * 0.1)], the value that [Math.max(0, ...)]
    clamps to give the opacity. *)
Definition opacityBeforeClamp (volume : Q) (i : Z) : Q :=
  ((6 # 10) - inject_Z i * (2 # 10) - volume * (1 # 10))%Q.

(** The opacity of ring [i]. *)
Definition ringOpacity (volume : Q) (i : Z) : Q :=
  Qmax 0 (opacityBeforeClamp volume i).

(** The radius of the centre core. *)
Definition coreRadius (volume : Q) : Q := (25 + volume * 10)%Q.

(** Half the side of the canvas ([width={300} height={300}]): the distance
    from the centre to the nearest edge. *)
Definition canvasHalf : Q := (300 / 2)%Q.

(* ===================================================================== *)
(** ** Running the monad *)
(* ===================================================================== *)

(** Equality of two logs up to the bracketing of [++]. *)
Ltac log_eq :=
  repeat first [rewrite <- app_assoc | rewrite app_nil_r | progress cbn [app]];
  try reflexivity.

(** Linear arithmetic with division and remainder by constants. *)
Ltac divlia := zify; Z.to_euclidean_division_equations; lia.

Lemma exec_bind {A B} (m : M A) (k : A → M B) w :
  exec (bind m k) w = exec (k (m w).1) (m w).2.
Proof. unfold exec, bind. by destruct (m w). Qed.

Lemma exec_seq {A} (m : M unit) (k : M A) w :
  exec (m >> k) w = exec k (exec m w).
Proof. unfold exec, bind. by destruct (m w). Qed.

Lemma forEach_perform {A} (f : A → Effect) (l : list A) w :
  forEach (λ x, perform (f x)) l w
  = (tt, mkWorld (this w) (env w) (reads w) (log w ++ map f l)
           (reactions w) (pending w)).
Proof.
  revert w. induction l as [|x l IH]; intros w; simpl.
  - rewrite app_nil_r. by destruct w.
  - unfold bind, perform at 1. rewrite IH. simpl. by rewrite <- app_assoc.
Qed.

Lemma forEach_cleanup (l : list Cleanup) w :
  forEach (λ fn, match fn with CloseSession => sessionThen SessionClose end) l w
  = (tt, mkWorld (this w) (env w) (reads w) (log w)
           (reactions w ++ map (λ _, SessionClose) l) (pending w)).
Proof.
  revert w. induction l as [|[] l IH]; intros w; simpl.
  - rewrite app_nil_r. by destruct w.
  - unfold bind, sessionThen at 1. rewrite IH. simpl. by rewrite <- app_assoc.
Qed.

Lemma disconnect_run w :
  disconnect w
  = (tt, mkWorld (mkLiveManager None None None None (nextStartTime (this w)) [])
           (env w) (reads w) (log w ++ releases (this w))
           (reactions w ++ map (λ _, SessionClose) (cleanupFunctions (this w)))
           (pending w)).
Proof.
  destruct w as [[ctx str proc inp cur fns] e n lg rs ps].
  unfold disconnect, bind, getThis. simpl. rewrite forEach_cleanup. simpl.
  unfold releases; simpl.
  destruct proc, inp, str as [tracks|], ctx; simpl;
    rewrite ?(forEach_perform TrackStop); simpl;
    rewrite <- ?app_assoc, ?app_nil_r; reflexivity.
Qed.

(* ===================================================================== *)
(** ** The playback cursor *)
(* ===================================================================== *)

(** One audio message, handled in a task that starts with no reaction
    queued and with the audio context in place. *)
Lemma audio_task (w : World) (data : jsstring) :
  is_Some (audioContext (this w)) →
  reactions w = [] →
  data ≠ [] →
  let m := this w in
  let start := Qmax (nextStartTime m) (currentTime (env w) (reads w)) in
  let duration := bufferDuration (env w) data in
  exec (task (onmessage (audioMessage data))) w
  = mkWorld
      (mkLiveManager (audioContext m) (stream m) (processor m) (inputSource m)
         (start + duration) (cleanupFunctions m))
      (env w) (S (reads w)) (log w ++ [SourceStart start duration]) []
      (pending w).
Proof.
  destruct w as [[ctx str proc inp cur fns] e n lg rs ps]; simpl.
  intros [u ->] -> Hdata. destruct data as [|c data]; [done|].
  unfold exec, task, onmessage, bind; simpl.
  by rewrite !app_nil_r.
Qed.

Lemma spec_schedule_lower (cursor : Q) (segments : list (Q * Q)) :
  Forall (λ p, 0 <= p.2)%Q segments →
  Forall (λ p, cursor <= p.1)%Q (spec_schedule cursor segments).
Proof.
  revert cursor. induction segments as [|[now d] rest IH]; intros cursor Hd; simpl.
  - constructor.
  - inversion Hd as [|? ? Hd0 Hrest]; subst. simpl in Hd0.
    constructor; simpl.
    + apply Q.le_max_l.
    + eapply Forall_impl; [apply IH, Hrest|].
      intros [s d'] Hs; simpl in *.
      pose proof (Q.le_max_l cursor now). lra.
Qed.

Lemma spec_schedule_sequential (cursor : Q) (segments : list (Q * Q)) :
  Forall (λ p, 0 <= p.2)%Q segments →
  sequential (spec_schedule cursor segments).
Proof.
  revert cursor. induction segments as [|[now d] rest IH]; intros cursor Hd; simpl.
  - exact I.
  - inversion Hd as [|? ? Hd0 Hrest]; subst. simpl in Hd0.
    split; [|by apply IH].
    pose proof (spec_schedule_lower (Qmax cursor now + d) rest Hrest) as Hlow.
    destruct rest as [|[now' d'] rest']; simpl in *; [done|].
    inversion Hlow as [|? ? Hnext _]; subst. simpl in Hnext. lra.
Qed.

Lemma arrivals_durations (e : Env) (tick : nat) (segments : list jsstring) :
  (∀ data, 0 <= bufferDuration e data)%Q →
  Forall (λ p, 0 <= p.2)%Q (arrivals e tick segments).
Proof.
  intros Hd. revert tick.
  induction segments as [|data rest IH]; intros tick; simpl; constructor.
  - apply Hd.
  - apply IH.
Qed.

Lemma audio_run (w : World) (segments : list jsstring) :
  is_Some (audioContext (this w)) →
  reactions w = [] →
  Forall (λ data, data ≠ []) segments →
  let m := this w in
  let arr := arrivals (env w) (reads w) segments in
  exec (forEach (λ data, task (onmessage (audioMessage data))) segments) w
  = mkWorld
      (mkLiveManager (audioContext m) (stream m) (processor m) (inputSource m)
         (spec_cursor (nextStartTime m) arr) (cleanupFunctions m))
      (env w) (length segments + reads w)
      (log w ++ startEffects (spec_schedule (nextStartTime m) arr))
      [] (pending w).
Proof.
  revert w. induction segments as [|data rest IH]; intros w Hctx Hrs Hne; simpl.
  - unfold exec, ret; simpl. rewrite app_nil_r.
    destruct w as [[] ? ? ? ? ?]; simpl in *; by subst.
  - inversion Hne as [|? ? Hdata Hrest]; subst.
    rewrite exec_seq, (audio_task w data Hctx Hrs Hdata).
    rewrite IH; simpl; [|done..].
    rewrite <- app_assoc. simpl. by rewrite Nat.add_succ_r.
Qed.

(** C1. Audio segments handled one after the other, each in its own task, by
    a manager that holds its audio context: segment [i] starts at the maximum
    of the cursor and the clock read when it is handled, the cursor then
    advances by its duration, and so every start is at least the start before
    it and at least that start plus that segment's duration. *)
Theorem playback_starts_sequential (w : World) (segments : list jsstring) :
  is_Some (audioContext (this w)) →
  reactions w = [] →
  Forall (λ data, data ≠ []) segments →
  (∀ data, 0 <= bufferDuration (env w) data)%Q →
  let w' := exec (forEach (λ data, task (onmessage (audioMessage data))) segments) w in
  let arr := arrivals (env w) (reads w) segments in
  let schedule := spec_schedule (nextStartTime (this w)) arr in
  log w' = log w ++ startEffects schedule
  ∧ nextStartTime (this w') = spec_cursor (nextStartTime (this w)) arr
  ∧ sequential schedule.
Proof.
  intros Hctx Hrs Hne Hdur w' arr schedule.
  subst w'. rewrite (audio_run w segments Hctx Hrs Hne). simpl.
  split; [done|]. split; [done|].
  by apply spec_schedule_sequential, arrivals_durations.
Qed.

Lemma playback_starts_sequential_witness :
  let w' := exec (forEach (λ data, task (onmessage (audioMessage data)))
                    [lit "AAAA"; lit "BBBB"; lit "CC"]) demoWorld in
  log w' = [SourceStart 5 2; SourceStart 10 2; SourceStart 15 2]
  ∧ nextStartTime (this w') = (15 + 2)%Q
  ∧ sequential [(5, 2); (10, 2); (15, 2)]%Q.
Proof.
  apply (playback_starts_sequential demoWorld [lit "AAAA"; lit "BBBB"; lit "CC"]).
  - by eexists.
  - reflexivity.
  - repeat constructor; discriminate.
  - intros data; simpl. discriminate.
Defined.

(** The cursor may run ahead of the clock: three segments handled at the same
    clock reading are queued back to back. *)
Example playback_back_to_back :
  spec_schedule 0 [(1, 2); (1, 3); (1, 1)]%Q
  = [(Qmax 0 1, 2); (Qmax (Qmax 0 1 + 2) 1, 3);
     (Qmax (Qmax (Qmax 0 1 + 2) 1 + 3) 1, 1)]%Q.
Proof. reflexivity. Qed.

(* ===================================================================== *)
(** ** Interruption *)
(* ===================================================================== *)

Lemma handleInterruption_run (w : World) :
  exec handleInterruption w
  = match audioContext (this w) with
    | Some _ =>
        exec (set_nextStartTime (currentTime (env w) (reads w)))
          (mkWorld (this w) (env w) (S (reads w)) (log w) (reactions w) (pending w))
    | None => exec (set_nextStartTime 0) w
    end.
Proof.
  destruct w as [[[u|] str proc inp cur fns] e n lg rs ps]; reflexivity.
Qed.

Lemma onmessage_interrupted (msg : LiveServerMessage) (w : World) :
  interrupted msg = true →
  exec (onmessage msg) w
  = exec handleInterruption (exec (onmessage (withoutInterruption msg)) w).
Proof.
  destruct msg as [tc ad i]; simpl; intros ->.
  unfold onmessage, withoutInterruption; simpl.
  rewrite !exec_seq. reflexivity.
Qed.

(** C2, as the claim states it, fails: after [disconnect] has released the
    audio context, an interruption puts the cursor at zero, whatever the
    clock says. *)
Lemma interruption_after_disconnect_zero :
  let w := exec (task disconnect)
             (exec (task (onmessage (audioMessage (lit "AAAA")))) demoWorld) in
  let w' := exec (task (onmessage interruptionMessage)) w in
  nextStartTime (this w) = (5 + 2)%Q
  ∧ currentTime (env w) (reads w) = 10%Q
  ∧ nextStartTime (this w') = 0%Q
  ∧ ¬ (nextStartTime (this w') == currentTime (env w) (reads w))%Q.
Proof. repeat split; try reflexivity. intros H; discriminate H. Qed.

(** C2, amended. The interruption branch runs last in [onmessage]. With the
    audio context in place it sets the cursor to the clock reading, which is
    at most any cursor value that lies at or after that reading; with the
    audio context released it sets the cursor to zero. It performs no effect,
    queues no reaction and touches no handle: no source that was started is
    stopped. *)
Theorem interruption_resets_cursor (w : World) (msg : LiveServerMessage) :
  interrupted msg = true →
  let w0 := exec (onmessage (withoutInterruption msg)) w in
  let w' := exec (onmessage msg) w in
  nextStartTime (this w')
    = match audioContext (this w0) with
      | Some _ => currentTime (env w0) (reads w0)
      | None => 0%Q
      end
  ∧ (is_Some (audioContext (this w0)) →
     ∀ future : Q, (currentTime (env w0) (reads w0) <= future)%Q →
       (nextStartTime (this w') <= future)%Q)
  ∧ log w' = log w0 ∧ reactions w' = reactions w0 ∧ pending w' = pending w0
  ∧ audioContext (this w') = audioContext (this w0)
  ∧ stream (this w') = stream (this w0)
  ∧ processor (this w') = processor (this w0)
  ∧ inputSource (this w') = inputSource (this w0)
  ∧ cleanupFunctions (this w') = cleanupFunctions (this w0).
Proof.
  intros Hint w0 w'. subst w'. rewrite (onmessage_interrupted msg w Hint).
  fold w0. rewrite handleInterruption_run.
  destruct w0 as [[[u|] str proc inp cur fns] e n lg rs ps]; simpl;
    (split; [reflexivity|]); (split; [|done]).
  - intros _ future Hf. exact Hf.
  - intros [? ?]; discriminate.
Qed.

Lemma interruption_resets_cursor_witness :
  let w := exec (task (onmessage (audioMessage (lit "AAAA")))) demoWorld in
  let w' := exec (onmessage interruptionMessage) w in
  nextStartTime (this w')
    = match audioContext (this w) with
      | Some _ => currentTime (env w) (reads w)
      | None => 0%Q
      end
  ∧ (is_Some (audioContext (this w)) →
     ∀ future : Q, (currentTime (env w) (reads w) <= future)%Q →
       (nextStartTime (this w') <= future)%Q)
  ∧ log w' = log w ∧ reactions w' = reactions w ∧ pending w' = pending w
  ∧ audioContext (this w') = audioContext (this w)
  ∧ stream (this w') = stream (this w)
  ∧ processor (this w') = processor (this w)
  ∧ inputSource (this w') = inputSource (this w)
  ∧ cleanupFunctions (this w') = cleanupFunctions (this w).
Proof.
  exact (interruption_resets_cursor
           (exec (task (onmessage (audioMessage (lit "AAAA")))) demoWorld)
           interruptionMessage eq_refl).
Defined.

(** The cursor stood at 7 ahead of the clock; the interruption at clock
    reading 10 moves it to 10 and leaves the started source in the log. *)
Example interruption_demo :
  let w := exec (task (onmessage (audioMessage (lit "AAAA")))) demoWorld in
  let w' := exec (task (onmessage interruptionMessage)) w in
  nextStartTime (this w) = (5 + 2)%Q
  ∧ nextStartTime (this w') = 10%Q
  ∧ log w' = [SourceStart 5 2].
Proof. repeat split. Qed.

(* ===================================================================== *)
(** ** Disconnect *)
(* ===================================================================== *)

(** C7. The first [disconnect] queues the closing reaction of every
    registered cleanup once, releases every handle that is held and leaves
    the four handles null and the cleanup list empty; a second [disconnect]
    right after it changes nothing at all. *)
Theorem disconnect_twice (w : World) :
  let w1 := exec disconnect w in
  let w2 := exec disconnect w1 in
  reactions w1 = reactions w ++ map (λ _, SessionClose) (cleanupFunctions (this w))
  ∧ log w1 = log w ++ releases (this w)
  ∧ this w1 = mkLiveManager None None None None (nextStartTime (this w)) []
  ∧ w2 = w1.
Proof.
  unfold exec. rewrite disconnect_run; simpl.
  repeat split.
Qed.

Example disconnect_demo :
  let w1 := exec (task disconnect) demoWorld in
  log w1 = [ProcessorDisconnect; InputSourceDisconnect; TrackStop 0;
            AudioContextClose; SessionClose]
  ∧ exec (task disconnect) w1 = w1.
Proof. split; reflexivity. Qed.

(* ===================================================================== *)
(** ** The tool dispatcher *)
(* ===================================================================== *)

Lemma dispatch_register (fc : FunctionCall) (w : World) :
  fc_name fc = lit "registerSupportTicket" →
  dispatch fc w
  = (tt, mkWorld (this w) (env w) (S (S (reads w)))
           (log w ++ [OnTicketCreated (ticketOf w fc);
                      GenerateContent (EmailPrompt (ticketOf w fc))])
           (reactions w)
           (pending w ++ [AwaitEmail (ticketOf w fc) (fc_id fc) (fc_name fc)])).
Proof.
  intros Hname. unfold dispatch. rewrite Hname.
  destruct (decide (lit "registerSupportTicket" = lit "analyzeProblem")) as [Heq|_];
    [discriminate Heq|].
  destruct (decide (lit "registerSupportTicket" = lit "registerSupportTicket"))
    as [_|Hne]; [|done].
  destruct w as [m e n lg rs ps]. unfold ticketOf, bind; simpl.
  unfold generateEmailDraft, awaitGenerateContent, bind; simpl.
  by rewrite <- app_assoc.
Qed.

Lemma dispatch_analyze (fc : FunctionCall) (w : World) :
  fc_name fc = lit "analyzeProblem" →
  dispatch fc w
  = (tt, mkWorld (this w) (env w) (reads w)
           (log w ++ [ConsoleLog "Analyzing problem:";
                      GenerateContent (TipsPrompt (fc_args fc !! "sistema")
                                         (fc_args fc !! "problemDescription"))])
           (reactions w ++ [SendToolResponse (analyzeAck fc)])
           (pending w ++ [AwaitTips (fc_args fc !! "sistema")])).
Proof.
  intros Hname. unfold dispatch. rewrite Hname.
  destruct (decide (lit "analyzeProblem" = lit "analyzeProblem")) as [_|Hne]; [|done].
  destruct w as [m e n lg rs ps]. unfold analyzeAck, bind; simpl.
  unfold generateTroubleshootingTips, awaitGenerateContent, bind; simpl.
  by rewrite Hname, <- app_assoc.
Qed.

(** A message with one tool call, handled in a task. *)
Lemma toolCall_task (fc : FunctionCall) (w : World) :
  exec (task (onmessage (toolCallMessage fc))) w = exec drain (exec (dispatch fc) w).
Proof.
  unfold task, onmessage, toolCallMessage; simpl.
  rewrite !exec_seq. unfold exec at 2 3, bind, getThis, ret; simpl.
  destruct (dispatch fc w) as [[] w']; simpl. reflexivity.
Qed.

Lemma settle_last (w : World) (k : Pending) (response : GenResult) (ps : list Pending) :
  pending w = ps ++ [k] →
  exec (settle (length ps) response) w
  = exec (task (resume k response))
      (mkWorld (this w) (env w) (reads w) (log w) (reactions w) ps).
Proof.
  intros Hps. unfold exec, settle. rewrite Hps.
  rewrite list_lookup_middle by done.
  by rewrite delete_middle, app_nil_r.
Qed.

(** A [registerSupportTicket] call from its message to the settling of its
    draft request. *)
Lemma register_run (w : World) (fc : FunctionCall) (response : GenResult) :
  fc_name fc = lit "registerSupportTicket" →
  reactions w = [] →
  let w1 := exec (task (onmessage (toolCallMessage fc))) w in
  let w2 := exec (settle (length (pending w)) response) w1 in
  let t := ticketOf w fc in
  w1 = mkWorld (this w) (env w) (S (S (reads w)))
         (log w ++ [OnTicketCreated t; GenerateContent (EmailPrompt t)]) []
         (pending w ++ [AwaitEmail t (fc_id fc) (fc_name fc)])
  ∧ w2 = mkWorld (this w) (env w) (S (S (reads w)))
           (log w1 ++ draftOutcome t (fc_id fc) (fc_name fc) response) []
           (pending w).
Proof.
  intros Hname Hrs w1 w2 t.
  assert (Hw1 : w1 = mkWorld (this w) (env w) (S (S (reads w)))
         (log w ++ [OnTicketCreated t; GenerateContent (EmailPrompt t)]) []
         (pending w ++ [AwaitEmail t (fc_id fc) (fc_name fc)])).
  { subst w1. rewrite toolCall_task. unfold exec at 2.
    rewrite (dispatch_register fc w Hname). unfold exec, drain; simpl.
    by rewrite Hrs, app_nil_r. }
  split; [exact Hw1|].
  subst w2. rewrite (settle_last w1 (AwaitEmail t (fc_id fc) (fc_name fc)) response (pending w))
    by (by rewrite Hw1).
  rewrite Hw1; simpl.
  destruct response as [text|]; unfold exec, task, bind; simpl;
    by rewrite <- !app_assoc.
Qed.

(** An [analyzeProblem] call from its message to the settling of its tips
    request. *)
Lemma analyze_run (w : World) (fc : FunctionCall) (response : GenResult) :
  fc_name fc = lit "analyzeProblem" →
  reactions w = [] →
  let w1 := exec (task (onmessage (toolCallMessage fc))) w in
  let w2 := exec (settle (length (pending w)) response) w1 in
  let system := fc_args fc !! "sistema" in
  w1 = mkWorld (this w) (env w) (reads w)
         (log w ++ [ConsoleLog "Analyzing problem:";
                    GenerateContent (TipsPrompt system (fc_args fc !! "problemDescription"));
                    SendToolResponse (analyzeAck fc)]) []
         (pending w ++ [AwaitTips system])
  ∧ w2 = mkWorld (this w) (env w) (reads w)
           (log w1 ++ tipsOutcome system response) [] (pending w).
Proof.
  intros Hname Hrs w1 w2 system.
  assert (Hw1 : w1 = mkWorld (this w) (env w) (reads w)
         (log w ++ [ConsoleLog "Analyzing problem:";
                    GenerateContent (TipsPrompt system (fc_args fc !! "problemDescription"));
                    SendToolResponse (analyzeAck fc)]) []
         (pending w ++ [AwaitTips system])).
  { subst w1. rewrite toolCall_task. unfold exec at 2.
    rewrite (dispatch_analyze fc w Hname). unfold exec, drain; simpl.
    by rewrite Hrs, <- app_assoc. }
  split; [exact Hw1|].
  subst w2. rewrite (settle_last w1 (AwaitTips system) response (pending w))
    by (by rewrite Hw1).
  rewrite Hw1; simpl.
  destruct response as [text|]; unfold exec, task, bind, tipsOutcome; simpl.
  - destruct (parseSteps (orEmpty text)) as [|step steps] eqn:Hsteps; simpl.
    + by rewrite !app_nil_r.
    + by rewrite app_nil_r.
  - by rewrite app_nil_r.
Qed.

Lemma toolResponses_tipsOutcome (system : option jsstring) (response : GenResult) :
  toolResponses (tipsOutcome system response) = []
  ∧ existsb isErrorEvent (tipsOutcome system response) = false.
Proof.
  destruct response as [text|]; simpl; [|done].
  by destruct (parseSteps (orEmpty text)).
Qed.

Lemma last_two {A} (l : list A) (x y : A) : last (l ++ [x; y]) = Some y.
Proof. change [x; y] with ([x] ++ [y]). rewrite app_assoc. apply last_snoc. Qed.

(** C3. A [registerSupportTicket] call handled in a task, and its draft
    request settling later: [ticket-created] is emitted before the draft
    request is issued; while the request is pending no tool response has been
    sent; when it settles, fulfilled or rejected, one more effect is
    performed and then the tool response of this call is sent, as the last
    effect of all. *)
Theorem register_ticket_ordering (w : World) (fc : FunctionCall) (response : GenResult) :
  fc_name fc = lit "registerSupportTicket" →
  reactions w = [] →
  let w1 := exec (task (onmessage (toolCallMessage fc))) w in
  let w2 := exec (settle (length (pending w)) response) w1 in
  let t := ticketOf w fc in
  log w1 = log w ++ [OnTicketCreated t; GenerateContent (EmailPrompt t)]
  ∧ reactions w1 = []
  ∧ pending w1 = pending w ++ [AwaitEmail t (fc_id fc) (fc_name fc)]
  ∧ ∃ (outcome : Effect) (r : FunctionResponse),
      log w2 = log w1 ++ [outcome; SendToolResponse r]
      ∧ toolResponses [outcome] = []
      ∧ fr_id r = fc_id fc ∧ fr_name r = fc_name fc
      ∧ last (log w2) = Some (SendToolResponse r)
      ∧ reactions w2 = [] ∧ pending w2 = pending w.
Proof.
  intros Hname Hrs w1 w2 t.
  destruct (register_run w fc response Hname Hrs) as [Hw1 Hw2].
  fold w1 in Hw1, Hw2. fold w2 in Hw2. fold t in Hw1, Hw2.
  rewrite Hw2. rewrite Hw1 at 1 2 3. simpl.
  repeat split.
  destruct response as [text|]; simpl;
    eexists _, _; (split; [reflexivity|]); repeat split; apply last_two.
Qed.

(** C8. When the draft request of a [registerSupportTicket] call is rejected,
    the tool response is still sent, and its text names the ticket as
    registered with its identifier; no [email-ready] is emitted; the
    [ticket-created] event of the call stays as it was emitted. *)
Theorem draft_failure_still_answers (w : World) (fc : FunctionCall) :
  fc_name fc = lit "registerSupportTicket" →
  reactions w = [] →
  let w1 := exec (task (onmessage (toolCallMessage fc))) w in
  let w2 := exec (settle (length (pending w)) Rejected) w1 in
  let t := ticketOf w fc in
  let id := makeTicketId (Math_random (env w) (S (reads w))) in
  ticketId t = Some id
  ∧ log w2 = log w ++
      [OnTicketCreated t; GenerateContent (EmailPrompt t);
       ConsoleError "Error generating email content:";
       SendToolResponse (mkFunctionResponse (fc_id fc) (fc_name fc)
         (lit "Error generando borrador, pero el ticket " ++ id
            ++ lit " fue registrado."))]
  ∧ existsb isEmailReady (drop (length (log w)) (log w2)) = false
  ∧ reactions w2 = [] ∧ pending w2 = pending w.
Proof.
  intros Hname Hrs w1 w2 t id.
  destruct (register_run w fc Rejected Hname Hrs) as [Hw1 Hw2].
  fold w1 in Hw1, Hw2. fold w2 in Hw2. fold t in Hw1, Hw2.
  rewrite Hw2. rewrite Hw1. simpl.
  rewrite <- app_assoc, drop_app_length. simpl.
  repeat split.
Qed.

(** C4. An [analyzeProblem] call handled in a task, and its tips request
    settling later: the acknowledgement is sent in the task of the message,
    while the request is still pending; whatever the request settles to, no
    further tool response is sent and no error event is emitted; a rejected
    request only writes to the console. *)
Theorem analyze_problem_single_ack (w : World) (fc : FunctionCall) (response : GenResult) :
  fc_name fc = lit "analyzeProblem" →
  reactions w = [] →
  let w1 := exec (task (onmessage (toolCallMessage fc))) w in
  let w2 := exec (settle (length (pending w)) response) w1 in
  let system := fc_args fc !! "sistema" in
  log w1 = log w ++
      [ConsoleLog "Analyzing problem:";
       GenerateContent (TipsPrompt system (fc_args fc !! "problemDescription"));
       SendToolResponse (analyzeAck fc)]
  ∧ pending w1 = pending w ++ [AwaitTips system]
  ∧ log w2 = log w1 ++ tipsOutcome system response
  ∧ toolResponses (drop (length (log w)) (log w2)) = [analyzeAck fc]
  ∧ existsb isErrorEvent (drop (length (log w)) (log w2)) = false
  ∧ (response = Rejected →
     log w2 = log w1 ++ [ConsoleError "Error generating tips"])
  ∧ reactions w2 = [] ∧ pending w2 = pending w.
Proof.
  intros Hname Hrs w1 w2 system.
  destruct (analyze_run w fc response Hname Hrs) as [Hw1 Hw2].
  fold w1 in Hw1, Hw2. fold w2 in Hw2. fold system in Hw1, Hw2.
  destruct (toolResponses_tipsOutcome system response) as [Hno Hnoerr].
  rewrite Hw2. rewrite Hw1. simpl.
  rewrite <- app_assoc, drop_app_length. simpl.
  rewrite Hno.
  repeat split; try done.
  intros ->. simpl. by rewrite <- app_assoc.
Qed.

Lemma register_ticket_ordering_witness :
  let w := demoWorld in
  let fc := demoRegister in
  let response := Fulfilled (Some (lit "Asunto: Falla")) in
  let w1 := exec (task (onmessage (toolCallMessage fc))) w in
  let w2 := exec (settle (length (pending w)) response) w1 in
  let t := ticketOf w fc in
  log w1 = log w ++ [OnTicketCreated t; GenerateContent (EmailPrompt t)]
  ∧ reactions w1 = []
  ∧ pending w1 = pending w ++ [AwaitEmail t (fc_id fc) (fc_name fc)]
  ∧ ∃ (outcome : Effect) (r : FunctionResponse),
      log w2 = log w1 ++ [outcome; SendToolResponse r]
      ∧ toolResponses [outcome] = []
      ∧ fr_id r = fc_id fc ∧ fr_name r = fc_name fc
      ∧ last (log w2) = Some (SendToolResponse r)
      ∧ reactions w2 = [] ∧ pending w2 = pending w.
Proof.
  exact (register_ticket_ordering demoWorld demoRegister
           (Fulfilled (Some (lit "Asunto: Falla"))) eq_refl eq_refl).
Defined.

Lemma draft_failure_still_answers_witness :
  let w := demoWorld in
  let fc := demoRegister in
  let w1 := exec (task (onmessage (toolCallMessage fc))) w in
  let w2 := exec (settle (length (pending w)) Rejected) w1 in
  let t := ticketOf w fc in
  let id := makeTicketId (Math_random (env w) (S (reads w))) in
  ticketId t = Some id
  ∧ log w2 = log w ++
      [OnTicketCreated t; GenerateContent (EmailPrompt t);
       ConsoleError "Error generating email content:";
       SendToolResponse (mkFunctionResponse (fc_id fc) (fc_name fc)
         (lit "Error generando borrador, pero el ticket " ++ id
            ++ lit " fue registrado."))]
  ∧ existsb isEmailReady (drop (length (log w)) (log w2)) = false
  ∧ reactions w2 = [] ∧ pending w2 = pending w.
Proof.
  exact (draft_failure_still_answers demoWorld demoRegister eq_refl eq_refl).
Defined.

(** The random source answers 1/2, so the ticket is T-55000. *)
Example draft_failure_demo :
  toolResponses
    (log (exec (settle 0 Rejected)
            (exec (task (onmessage (toolCallMessage demoRegister))) demoWorld)))
  = [mkFunctionResponse (lit "call-2") (lit "registerSupportTicket")
       (lit "Error generando borrador, pero el ticket T-55000 fue registrado.")].
Proof. reflexivity. Qed.

Lemma analyze_problem_single_ack_witness :
  let w := demoWorld in
  let fc := demoAnalyze in
  let response := Rejected in
  let w1 := exec (task (onmessage (toolCallMessage fc))) w in
  let w2 := exec (settle (length (pending w)) response) w1 in
  let system := fc_args fc !! "sistema" in
  log w1 = log w ++
      [ConsoleLog "Analyzing problem:";
       GenerateContent (TipsPrompt system (fc_args fc !! "problemDescription"));
       SendToolResponse (analyzeAck fc)]
  ∧ pending w1 = pending w ++ [AwaitTips system]
  ∧ log w2 = log w1 ++ tipsOutcome system response
  ∧ toolResponses (drop (length (log w)) (log w2)) = [analyzeAck fc]
  ∧ existsb isErrorEvent (drop (length (log w)) (log w2)) = false
  ∧ (response = Rejected →
     log w2 = log w1 ++ [ConsoleError "Error generating tips"])
  ∧ reactions w2 = [] ∧ pending w2 = pending w.
Proof.
  exact (analyze_problem_single_ack demoWorld demoAnalyze Rejected eq_refl eq_refl).
Defined.

(* ===================================================================== *)
(** ** The ticket record *)
(* ===================================================================== *)

Lemma digits_last (fuel : nat) (n : N) (acc : jsstring) :
  n / 10 = 0 → digits fuel n acc = (48 + n mod 10) :: acc.
Proof. intros H. destruct fuel; cbn [digits]; [done|]. by rewrite H. Qed.

Lemma digits_five (fuel : nat) (n : N) :
  (4 ≤ fuel)%nat → 10000 ≤ n ≤ 99999 →
  ∃ ds, digits fuel n [] = ds ∧ length ds = 5%nat ∧ forallb isDigit ds = true.
Proof.
  intros Hfuel Hn.
  destruct fuel as [|[|[|[|fuel]]]]; [lia..|].
  assert (H1 : (n / 10 =? 0) = false) by (apply N.eqb_neq; divlia).
  assert (H2 : (n / 10 / 10 =? 0) = false) by (apply N.eqb_neq; divlia).
  assert (H3 : (n / 10 / 10 / 10 =? 0) = false) by (apply N.eqb_neq; divlia).
  assert (H4 : (n / 10 / 10 / 10 / 10 =? 0) = false) by (apply N.eqb_neq; divlia).
  assert (H5 : n / 10 / 10 / 10 / 10 / 10 = 0) by divlia.
  assert (Hdigit : ∀ k, isDigit (48 + k mod 10) = true).
  { intros k. unfold isDigit. apply andb_true_iff; split; apply N.leb_le; divlia. }
  cbn [digits]. rewrite H1, H2, H3, H4, (digits_last _ _ _ H5).
  eexists; split; [reflexivity|split; [reflexivity|]].
  cbn [forallb]. by rewrite !Hdigit.
Qed.

Lemma Number_toString_five (n : Z) :
  (10000 ≤ n ≤ 99999)%Z →
  ∃ ds, Number_toString n = ds ∧ length ds = 5%nat ∧ forallb isDigit ds = true.
Proof.
  intros Hn. unfold Number_toString.
  destruct (Z.ltb_spec n 0) as [Hneg|_]; [lia|]. cbn [app].
  apply digits_five.
  - assert (Hlog : N.log2 10000 ≤ N.log2 (Z.to_N (Z.abs n)))
      by (apply N.log2_le_mono; lia).
    change (N.log2 10000) with 13 in Hlog. lia.
  - lia.
Qed.

Lemma ticket_number_range (random : Q) :
  (0 <= random)%Q → (random < 1)%Q →
  (10000 ≤ Qfloor (10000 + random * 90000) ≤ 99999)%Z.
Proof.
  intros H0 H1. split.
  - assert (Hlow : (10000 <= 10000 + random * 90000)%Q) by lra.
    apply Qfloor_resp_le in Hlow. exact Hlow.
  - assert (Hup : (10000 + random * 90000 < 100000)%Q) by lra.
    assert (Hlt : (Qfloor (10000 + random * 90000) < 100000)%Z); [|lia].
    rewrite Zlt_Qlt.
    eapply Qle_lt_trans; [apply Qfloor_le|exact Hup].
Qed.

Lemma isTicketId_five (ds : jsstring) :
  length ds = 5%nat → forallb isDigit ds = true → isTicketId (lit "T-" ++ ds) = true.
Proof. intros Hlen Hds. cbn. by rewrite Hlen, Hds. Qed.

(** C9. A [registerSupportTicket] call, whatever the random source answers
    in [0, 1): the identifier of the ticket it emits is [T-] followed by the
    five decimal digits of a number between 10000 and 99999, and that number
    comes from the random source alone: any other call dispatched at the
    same point, whatever its arguments, gets the same identifier. *)
Theorem ticket_id_format (w : World) (fc : FunctionCall) :
  fc_name fc = lit "registerSupportTicket" →
  let random := Math_random (env w) (S (reads w)) in
  (0 <= random)%Q → (random < 1)%Q →
  let n := Qfloor (10000 + random * 90000) in
  let t := ticketOf w fc in
  log (exec (dispatch fc) w)
    = log w ++ [OnTicketCreated t; GenerateContent (EmailPrompt t)]
  ∧ ticketId t = Some (lit "T-" ++ Number_toString n)
  ∧ (10000 ≤ n ≤ 99999)%Z
  ∧ isTicketId (lit "T-" ++ Number_toString n) = true
  ∧ ∀ fc' : FunctionCall, ticketId (ticketOf w fc') = ticketId t.
Proof.
  intros Hname random H0 H1 n t.
  pose proof (ticket_number_range random H0 H1) as Hn. fold n in Hn.
  destruct (Number_toString_five n Hn) as (ds & Hds & Hlen & Hdig).
  unfold exec. rewrite (dispatch_register fc w Hname). simpl.
  repeat split; try lia.
  rewrite Hds. by apply isTicketId_five.
Qed.

Lemma ticket_id_format_witness :
  let w := demoWorld in
  let fc := demoRegister in
  let n := Qfloor (10000 + (1 # 2) * 90000) in
  let t := ticketOf w fc in
  log (exec (dispatch fc) w)
    = log w ++ [OnTicketCreated t; GenerateContent (EmailPrompt t)]
  ∧ ticketId t = Some (lit "T-" ++ Number_toString n)
  ∧ (10000 ≤ n ≤ 99999)%Z
  ∧ isTicketId (lit "T-" ++ Number_toString n) = true
  ∧ ∀ fc' : FunctionCall, ticketId (ticketOf w fc') = ticketId t.
Proof.
  apply (ticket_id_format demoWorld demoRegister eq_refl); simpl.
  - discriminate.
  - reflexivity.
Defined.

(** The extremes of the random source. *)
Example ticket_id_extremes :
  makeTicketId 0 = lit "T-10000"
  ∧ makeTicketId (1 # 2) = lit "T-55000"
  ∧ makeTicketId (9007199254740991 # 9007199254740992) = lit "T-99999".
Proof. repeat split. Qed.

(** A [registerSupportTicket] call that carries an [args] object builds its
    ticket and emits [ticket-created] whatever the object holds; each of
    [correo], [municipalidad], [sistema] and [descripcion] that is missing
    from it or is the empty string gives the empty string in the ticket. *)
Theorem ticket_missing_arguments_empty (w : World) (fc : FunctionCall) :
  fc_name fc = lit "registerSupportTicket" →
  let t := ticketOf w fc in
  let args := fc_args fc in
  log (exec (dispatch fc) w)
    = log w ++ [OnTicketCreated t; GenerateContent (EmailPrompt t)]
  ∧ (truthy (args !! "correo") = false → correo t = [])
  ∧ (truthy (args !! "municipalidad") = false → municipalidad t = [])
  ∧ (truthy (args !! "sistema") = false → sistema t = [])
  ∧ (truthy (args !! "descripcion") = false → descripcion t = [])
  ∧ (∀ key value, args !! key = Some value → truthy (Some value) = true →
       orEmpty (args !! key) = value).
Proof.
  intros Hname t args.
  assert (Hfalsy : ∀ v, truthy v = false → orEmpty v = []).
  { by intros [[|c s]|]. }
  unfold exec. rewrite (dispatch_register fc w Hname). simpl.
  split; [reflexivity|].
  repeat split; try (intros H; by apply Hfalsy).
  intros key value -> Hv. by destruct value.
Qed.

Lemma ticket_missing_arguments_empty_witness :
  let w := demoWorld in
  let fc := demoRegister in
  let t := ticketOf w fc in
  let args := fc_args fc in
  log (exec (dispatch fc) w)
    = log w ++ [OnTicketCreated t; GenerateContent (EmailPrompt t)]
  ∧ (truthy (args !! "correo") = false → correo t = [])
  ∧ (truthy (args !! "municipalidad") = false → municipalidad t = [])
  ∧ (truthy (args !! "sistema") = false → sistema t = [])
  ∧ (truthy (args !! "descripcion") = false → descripcion t = [])
  ∧ (∀ key value, args !! key = Some value → truthy (Some value) = true →
       orEmpty (args !! key) = value).
Proof.
  exact (ticket_missing_arguments_empty demoWorld demoRegister eq_refl).
Defined.

(** C10. A [registerSupportTicket] call received without an [args] object
    has all four arguments missing, and no ticket comes of it: the handler
    throws at the first read of an argument, after the date and the random
    number were read; [ticket-created] is not emitted, no request is issued,
    no tool response is queued, and the rest of the message (further calls,
    audio, interruption) is not handled. The same call with an empty [args]
    object emits the ticket with the four fields empty. *)
Theorem register_without_args_throws
    (w : World) (id : jsstring) (rest : list ReceivedCall)
    (audioData : option jsstring) (interrupted : bool) :
  let name := lit "registerSupportTicket" in
  let without := onmessageReceived (Some (mkReceivedCall id name None :: rest))
                   audioData interrupted w in
  let with_empty := dispatchReceived (mkReceivedCall id name (Some ∅)) w in
  without.1 = ThrewTypeError
  ∧ without.2 = mkWorld (this w) (env w) (S (S (reads w))) (log w) (reactions w) (pending w)
  ∧ with_empty.1 = Completed
  ∧ ticketsCreated (drop (length (log w)) (log with_empty.2))
    = [mkTicketData [] [] [] [] (Date_toISOString (env w) (reads w))
         (Some (makeTicketId (Math_random (env w) (S (reads w)))))].
Proof.
  intros name without with_empty.
  assert (Hwithout : without
            = (ThrewTypeError,
               mkWorld (this w) (env w) (S (S (reads w))) (log w) (reactions w)
                 (pending w))).
  { subst without name. destruct w as [m e n lg rs ps].
    unfold onmessageReceived. cbn [forEachReceived].
    unfold dispatchReceived. cbn [rc_args rc_name rc_id].
    destruct (decide (lit "registerSupportTicket" = lit "analyzeProblem")) as [Heq|_];
      [discriminate Heq|].
    destruct (decide (lit "registerSupportTicket" = lit "registerSupportTicket"))
      as [_|Hne]; [|done].
    reflexivity. }
  assert (Hwith : with_empty
            = (Completed,
               mkWorld (this w) (env w) (S (S (reads w)))
                 (log w ++ [OnTicketCreated (ticketOf w (mkFunctionCall id name ∅));
                            GenerateContent
                              (EmailPrompt (ticketOf w (mkFunctionCall id name ∅)))])
                 (reactions w)
                 (pending w ++ [AwaitEmail (ticketOf w (mkFunctionCall id name ∅)) id name]))).
  { subst with_empty. unfold dispatchReceived. cbn [rc_args rc_name rc_id].
    unfold bind at 1.
    by rewrite (dispatch_register (mkFunctionCall id name ∅) w eq_refl). }
  rewrite Hwithout, Hwith. cbn [fst snd log].
  rewrite drop_app_length. repeat split.
Qed.

(** [municipalidad] is missing and [descripcion] is empty: both fields are
    the empty string, the other two are the arguments. *)
Example ticket_missing_arguments_demo :
  ticketOf demoWorld demoRegister
  = mkTicketData (lit "ana@example.cl") [] (lit "bodega") []
      (lit "2024-05-01T12:00:00.000Z") (Some (lit "T-55000")).
Proof. reflexivity. Qed.

(* ===================================================================== *)
(** ** Troubleshooting tips *)
(* ===================================================================== *)

Section Tips.

Let clean (line : jsstring) : jsstring := trim (stripBullet line).
Let nonEmpty (line : jsstring) : Prop := (0 < length line)%nat.

Lemma filter_take_spec_steps (limit : nat) (lines : list jsstring) :
  take limit (filter nonEmpty (map clean lines)) = spec_steps limit lines.
Proof.
  revert limit. induction lines as [|line rest IH]; intros limit.
  - by destruct limit.
  - destruct limit as [|limit'].
    + by rewrite take_0.
    + cbn [map spec_steps]. fold (clean line).
      destruct (clean line) as [|c s] eqn:Hclean.
      * rewrite filter_cons_False by (unfold nonEmpty; simpl; lia).
        apply IH.
      * rewrite filter_cons_True by (unfold nonEmpty; simpl; lia).
        cbn [take]. by rewrite IH.
Qed.

Lemma parseSteps_spec (text : jsstring) :
  parseSteps text = spec_steps 3 (split_nl text).
Proof. apply filter_take_spec_steps. Qed.


Lemma spec_steps_from_lines (limit : nat) (lines : list jsstring) :
  Forall (λ step, step ≠ [] ∧ ∃ line, line ∈ lines ∧ step = trim (stripBullet line))
    (spec_steps limit lines).
Proof.
  revert limit. induction lines as [|line rest IH]; intros limit; simpl; [constructor|].
  destruct limit as [|limit']; [constructor|].
  destruct (trim (stripBullet line)) as [|c s] eqn:Hclean.
  - eapply Forall_impl; [apply IH|].
    intros step (Hne & l & Hl & ->). split; [done|]. exists l. split; [by right|done].
  - constructor.
    + split; [done|]. exists line. split; [by left|done].
    + eapply Forall_impl; [apply IH|].
      intros step (Hne & l & Hl & ->). split; [done|]. exists l. split; [by right|done].
Qed.

End Tips.

Section BulletedLines.











End BulletedLines.

Lemma tips_resume_log (system : option jsstring) (text : jsstring) (w : World) :
  log (exec (generateTroubleshootingTips_resume system (Fulfilled (Some text))) w)
  = log w ++
      match parseSteps text with
      | [] => []
      | steps =>
          [OnSolutionsReady
             (mkSolutionData (lit "Posibles Soluciones: " ++ interpolate system) steps)]
      end.
Proof.
  unfold generateTroubleshootingTips_resume.
  replace (orEmpty (Some text)) with text by (by destruct text).
  destruct (parseSteps text) as [|step steps]; simpl.
  - by rewrite app_nil_r.
  - reflexivity.
Qed.



(** Blank lines and lines that hold only a bullet marker are passed over; a
    bullet marker after leading white space is not at the start of the line
    and stays; a text without any step emits nothing. *)
Example tips_demo :
  parseSteps (lit "-" ++ [10; 10] ++ lit "* uno" ++ [10] ++ lit "   "
                ++ [10] ++ lit "  - dos" ++ [10] ++ lit "tres" ++ [10] ++ lit "- cuatro")
  = [lit "uno"; lit "- dos"; lit "tres"]
  ∧ log (exec (generateTroubleshootingTips_resume None
                 (Fulfilled (Some (lit "-" ++ [10] ++ lit "  ")))) demoWorld) = []
  ∧ log (exec (generateTroubleshootingTips_resume None (Fulfilled None)) demoWorld) = [].
Proof. repeat split. Qed.

(* ===================================================================== *)
(** ** The email draft *)
(* ===================================================================== *)

Lemma trimStart_skip_white (s : jsstring) :
  existsb (λ c, negb (isWhiteSpace c)) (takeWhile notLineTerminator s) = true →
  trimStart (takeWhile notLineTerminator (dropWhile isWhiteSpace s))
  = trimStart (takeWhile notLineTerminator s).
Proof.
  induction s as [|c s IH]; [done|].
  cbn [takeWhile dropWhile].
  destruct (notLineTerminator c) eqn:Hlt; [|done].
  destruct (isWhiteSpace c) eqn:Hws; cbn [existsb negb orb].
  - rewrite Hws. cbn [negb orb]. intros Hex. rewrite (IH Hex).
    unfold trimStart. cbn [dropWhile]. by rewrite Hws.
  - intros _. cbn [takeWhile]. by rewrite Hlt.
Qed.

Lemma trimStart_skip_linefeeds (s : jsstring) :
  trimStart (dropWhile (λ c, c =? 10) s) = trimStart s.
Proof.
  induction s as [|c s IH]; [done|].
  cbn [dropWhile]. destruct (N.eqb_spec c 10) as [->|_]; [|done].
  rewrite IH. reflexivity.
Qed.

Lemma matchSubject_marker (fullText rest : jsstring) :
  stripPrefix_ci (lit "Asunto:") fullText = Some rest →
  existsb (λ c, negb (isWhiteSpace c)) (takeWhile notLineTerminator rest) = true →
  ∃ group1, matchSubject fullText = Some group1
            ∧ trim group1 = trim (takeWhile notLineTerminator rest).
Proof.
  intros Hmarker Hsubject. unfold matchSubject. rewrite Hmarker.
  eexists; split; [reflexivity|].
  unfold trim. by rewrite (trimStart_skip_white rest Hsubject).
Qed.

Lemma replaceSubjectLine_marker (fullText rest after : jsstring) :
  stripPrefix_ci (lit "Asunto:") fullText = Some rest →
  dropWhile notLineTerminator rest = 10 :: after →
  trim (replaceSubjectLine fullText) = trim after.
Proof.
  intros Hmarker Hline. unfold replaceSubjectLine. rewrite Hmarker, Hline.
  cbn [N.eqb Pos.eqb]. unfold trim. by rewrite trimStart_skip_linefeeds.
Qed.

(** C5, as the claim states it, fails. A marker line that is not ended by a
    line feed stays in the body; an empty marker line takes the next line as
    the subject; and the body loses the white space at its ends. *)
Lemma email_draft_not_as_specified :
  (body (parseEmailDraft exampleTicket (lit "Asunto: Falla")) = lit "Asunto: Falla"
   ∧ body (spec_draft exampleTicket (lit "Asunto: Falla")) = [])
  ∧ (subject (parseEmailDraft exampleTicket (lit "Asunto:" ++ [10] ++ lit "Hola")) = lit "Hola"
     ∧ subject (spec_draft exampleTicket (lit "Asunto:" ++ [10] ++ lit "Hola")) = [])
  ∧ (body (parseEmailDraft exampleTicket (lit "Asunto: A" ++ [10] ++ lit "  Hola ")) = lit "Hola"
     ∧ body (spec_draft exampleTicket (lit "Asunto: A" ++ [10] ++ lit "  Hola ")) = lit "  Hola ")
  ∧ parseEmailDraft exampleTicket (lit "Asunto: Falla")
    ≠ spec_draft exampleTicket (lit "Asunto: Falla").
Proof. repeat split. discriminate. Qed.

(** C5, amended. When the text begins with [Asunto:], in any letter case,
    and the rest of that line is not blank, the subject is the rest of that
    line, trimmed; when that line is ended by a line feed, the body is the
    text after it, trimmed. When the text does not begin with the marker, the
    subject is [Ticket <ticketId> - Soporte <municipality>] and the body is
    the whole text. For the text of the specification's example the subject
    is [Falla en módulo] and the body is [Estimado...]. *)
Theorem email_draft_parsing (uiTicket : TicketData) (fullText : jsstring) :
  let draft := parseEmailDraft uiTicket fullText in
  (∀ rest : jsstring,
     stripPrefix_ci (lit "Asunto:") fullText = Some rest →
     let line := takeWhile notLineTerminator rest in
     (existsb (λ c, negb (isWhiteSpace c)) line = true → subject draft = trim line)
     ∧ (∀ after : jsstring,
          dropWhile notLineTerminator rest = 10 :: after → body draft = trim after))
  ∧ (stripPrefix_ci (lit "Asunto:") fullText = None →
     subject draft = lit "Ticket " ++ interpolate (ticketId uiTicket)
                       ++ lit " - Soporte " ++ municipalidad uiTicket
     ∧ body draft = fullText)
  ∧ parseEmailDraft uiTicket exampleText
    = mkEmailDraft (lit "Falla en m" ++ [243] ++ lit "dulo") (lit "Estimado...").
Proof.
  intros draft. split; [|split].
  - intros rest Hmarker line. subst draft. unfold parseEmailDraft.
    split.
    + intros Hsubject.
      destruct (matchSubject_marker fullText rest Hmarker Hsubject) as (g & -> & Hg).
      exact Hg.
    + intros after Hline.
      assert (Hmatch : ∃ g, matchSubject fullText = Some g)
        by (unfold matchSubject; rewrite Hmarker; eauto).
      destruct Hmatch as [g ->]. simpl.
      by apply (replaceSubjectLine_marker fullText rest after).
  - intros Hnone. subst draft. unfold parseEmailDraft, matchSubject.
    by rewrite Hnone.
  - reflexivity.
Qed.

Lemma email_draft_parsing_witness :
  subject (parseEmailDraft exampleTicket exampleText) = lit "Falla en m" ++ [243] ++ lit "dulo"
  ∧ body (parseEmailDraft exampleTicket exampleText) = lit "Estimado..."
  ∧ subject (parseEmailDraft exampleTicket (lit "Estimado...")) = lit "Ticket T-12345 - Soporte ExampleCity"
  ∧ body (parseEmailDraft exampleTicket (lit "Estimado...")) = lit "Estimado...".
Proof.
  destruct (email_draft_parsing exampleTicket exampleText) as (Hmarker & _ & _).
  destruct (Hmarker (lit " Falla en m" ++ [243] ++ lit "dulo" ++ [10] ++ lit "Estimado...")
              eq_refl) as [Hsubject Hbody].
  destruct (email_draft_parsing exampleTicket (lit "Estimado...")) as (_ & Hnone & _).
  destruct (Hnone eq_refl) as [Hsubject' Hbody'].
  split; [exact (Hsubject eq_refl)|].
  split; [exact (Hbody (lit "Estimado...") eq_refl)|].
  split; [exact Hsubject'|exact Hbody'].
Defined.

(* ===================================================================== *)
(** ** Connecting and tearing down *)
(* ===================================================================== *)

Lemma connect_catch_run (message : option jsstring) (w : World) :
  connect_catch message w
  = (tt, mkWorld (mkLiveManager None None None None (nextStartTime (this w)) [])
           (env w) (reads w)
           (log w ++ [ConsoleError "Connection setup failed:"]
              ++ match stream (this w) with
                 | Some _ => [OnError (setupErrorMessage message)]
                 | None => []
                 end
              ++ releases (this w) ++ [OnClose])
           (reactions w ++ map (λ _, SessionClose) (cleanupFunctions (this w)))
           (pending w)).
Proof.
  destruct w as [[ctx str proc inp cur fns] e n lg rs ps].
  unfold connect_catch, bind, getThis. cbn [perform this log stream].
  destruct str as [tracks|]; cbn [perform ret];
    rewrite disconnect_run; unfold perform; cbn;
    by rewrite <- !app_assoc.
Qed.

Arguments connect_catch : simpl never.

(** X1. On a new manager, when [getUserMedia] is rejected, [connect] reports
    the message chosen by the name of the error once, closes the output
    context it had created, emits [closed] last and leaves the manager as
    new; no second error message follows. *)
Theorem connect_microphone_rejected
    (w : World) (name : jsstring) (message : option jsstring) (graph : GraphOutcome) :
  this w = newLiveManager →
  reactions w = [] →
  exec (connect ContextCreated (MicRejected name message) graph) w
  = mkWorld newLiveManager (env w) (reads w)
      (log w ++ [OnError (micErrorMessage name);
                 ConsoleError "Connection setup failed:";
                 AudioContextClose; OnClose])
      [] (pending w).
Proof.
  destruct w as [m e n lg rs ps]; cbn [this reactions]. intros -> ->.
  unfold exec, connect, task_bool, task, bind. cbn.
  rewrite connect_catch_run. cbn.
  by rewrite <- !app_assoc, !app_nil_r.
Qed.

Lemma connect_microphone_rejected_witness :
  exec (connect ContextCreated (MicRejected (lit "NotFoundError") None) GraphDone)
    (mkWorld newLiveManager demoEnv 0 [] [] [])
  = mkWorld newLiveManager demoEnv 0
      [OnError (lit "No se encontr" ++ [243] ++ lit " ning" ++ [250]
                  ++ lit "n dispositivo de micr" ++ [243] ++ lit "fono.");
       ConsoleError "Connection setup failed:";
       AudioContextClose; OnClose]
      [] [].
Proof.
  exact (connect_microphone_rejected (mkWorld newLiveManager demoEnv 0 [] [] [])
           (lit "NotFoundError") None GraphDone eq_refl eq_refl).
Defined.

(** X2. On a new manager, when the output context cannot be created,
    [connect] emits [closed] but no error message at all: the outer [catch]
    takes the missing stream for a microphone failure that was already
    reported. *)
Theorem connect_context_failure_silent
    (w : World) (message : option jsstring) (mic : MicOutcome) (graph : GraphOutcome) :
  this w = newLiveManager →
  reactions w = [] →
  let w' := exec (connect (ContextThrows message) mic graph) w in
  log w' = log w ++ [ConsoleError "Connection setup failed:"; OnClose]
  ∧ existsb isErrorEvent (drop (length (log w)) (log w')) = false
  ∧ this w' = newLiveManager.
Proof.
  destruct w as [m e n lg rs ps]; cbn [this reactions]. intros -> ->.
  unfold exec, connect, task_bool, task, connect_begin; unfold bind. cbn.
  rewrite connect_catch_run. cbn.
  rewrite <- !app_assoc, !app_nil_r. cbn. rewrite drop_app_length.
  repeat split.
Qed.

Lemma connect_context_failure_silent_witness :
  let w := mkWorld newLiveManager demoEnv 0 [] [] [] in
  let w' := exec (connect (ContextThrows (Some (lit "AudioContext is not a constructor")))
                    (MicGranted [0%nat]) GraphDone) w in
  log w' = log w ++ [ConsoleError "Connection setup failed:"; OnClose]
  ∧ existsb isErrorEvent (drop (length (log w)) (log w')) = false
  ∧ this w' = newLiveManager.
Proof.
  exact (connect_context_failure_silent (mkWorld newLiveManager demoEnv 0 [] [] [])
           (Some (lit "AudioContext is not a constructor"))
           (MicGranted [0%nat]) GraphDone eq_refl eq_refl).
Defined.

(** X3. On a new manager, when the set-up of the capture graph throws after
    the microphone was granted, [connect] reports the message of the error,
    or the default one when it has none, disconnects the nodes built so far,
    stops every track of the microphone, closes the output context, emits
    [closed] and leaves the manager as new. *)
Theorem connect_graph_failure_releases
    (w : World) (tracks : list nat) (graph : GraphOutcome) (message : option jsstring) :
  this w = newLiveManager →
  reactions w = [] →
  thrownMessage graph = Some message →
  exec (connect ContextCreated (MicGranted tracks) graph) w
  = mkWorld newLiveManager (env w) (reads w)
      (log w ++ [ConsoleError "Connection setup failed:";
                 OnError (setupErrorMessage message)]
         ++ nodesBuilt graph ++ map TrackStop tracks
         ++ [AudioContextClose; OnClose])
      [] (pending w).
Proof.
  destruct w as [m e n lg rs ps]; cbn [this reactions]. intros -> -> Hthrown.
  unfold exec, connect, task_bool, task, bind. cbn.
  destruct graph as [m'|m'|m'|]; cbn in Hthrown; [| | |discriminate Hthrown];
    injection Hthrown as ->; cbn;
    rewrite connect_catch_run; cbn;
    by rewrite <- !app_assoc, !app_nil_r.
Qed.

Lemma connect_graph_failure_releases_witness :
  exec (connect ContextCreated (MicGranted [0; 1]%nat) (ThrowsBeforeProcessor None))
    (mkWorld newLiveManager demoEnv 0 [] [] [])
  = mkWorld newLiveManager demoEnv 0
      ([] ++ [ConsoleError "Connection setup failed:";
              OnError (setupErrorMessage None)]
         ++ nodesBuilt (ThrowsBeforeProcessor None) ++ map TrackStop [0; 1]%nat
         ++ [AudioContextClose; OnClose])
      [] [].
Proof.
  exact (connect_graph_failure_releases (mkWorld newLiveManager demoEnv 0 [] [] [])
           [0; 1]%nat (ThrowsBeforeProcessor None) None eq_refl eq_refl eq_refl).
Defined.

Lemma connect_done_run (w : World) (tracks : list nat) :
  reactions w = [] →
  exec (connect ContextCreated (MicGranted tracks) GraphDone) w
  = mkWorld
      (mkLiveManager (Some ()) (Some tracks) (Some ()) (Some ())
         (nextStartTime (this w)) (cleanupFunctions (this w) ++ [CloseSession]))
      (env w) (reads w) (log w) [] (pending w).
Proof.
  destruct w as [[ctx str proc inp cur fns] e n lg rs ps]; cbn [reactions].
  intros ->. unfold exec, connect, task_bool, task, bind. cbn.
  by rewrite !app_nil_r.
Qed.

(** X4. A successful [connect] on a new manager performs no effect by
    itself, holds the four handles and registers one cleanup; the
    [disconnect] that follows disconnects both capture nodes, stops every
    track of the microphone, closes the output context, asks the session to
    close, and leaves the manager as new. *)
Theorem connect_then_disconnect (w : World) (tracks : list nat) :
  this w = newLiveManager →
  reactions w = [] →
  let w1 := exec (connect ContextCreated (MicGranted tracks) GraphDone) w in
  let w2 := exec (task disconnect) w1 in
  log w1 = log w
  ∧ this w1 = mkLiveManager (Some ()) (Some tracks) (Some ()) (Some ()) 0 [CloseSession]
  ∧ log w2 = log w ++ [ProcessorDisconnect; InputSourceDisconnect]
               ++ map TrackStop tracks ++ [AudioContextClose; SessionClose]
  ∧ this w2 = newLiveManager
  ∧ reactions w2 = [].
Proof.
  intros Hnew Hrs w1 w2. subst w2 w1.
  rewrite (connect_done_run w tracks Hrs), Hnew.
  unfold exec, task, bind. rewrite disconnect_run. cbn.
  repeat split. log_eq.
Qed.

Lemma connect_then_disconnect_witness :
  let w := mkWorld newLiveManager demoEnv 0 [] [] [] in
  let w1 := exec (connect ContextCreated (MicGranted [7; 8]%nat) GraphDone) w in
  let w2 := exec (task disconnect) w1 in
  log w1 = log w
  ∧ this w1 = mkLiveManager (Some ()) (Some [7; 8]%nat) (Some ()) (Some ()) 0 [CloseSession]
  ∧ log w2 = log w ++ [ProcessorDisconnect; InputSourceDisconnect]
               ++ map TrackStop [7; 8]%nat ++ [AudioContextClose; SessionClose]
  ∧ this w2 = newLiveManager
  ∧ reactions w2 = [].
Proof.
  exact (connect_then_disconnect (mkWorld newLiveManager demoEnv 0 [] [] [])
           [7; 8]%nat eq_refl eq_refl).
Defined.

(** X5. [disconnect] called while [connect] waits for the microphone does
    not cancel it: when the microphone is granted afterwards, [connect] goes
    on, keeps the stream and both capture nodes and registers the cleanup of
    the session, on a manager whose output context is already closed. Only
    another [disconnect] stops the tracks. *)
Theorem disconnect_during_microphone_prompt (w : World) (tracks : list nat) :
  this w = newLiveManager →
  reactions w = [] →
  let w1 := exec (task_bool (connect_begin ContextCreated)) w in
  let w2 := exec (task disconnect) w1 in
  let w3 := exec (task (connect_resume (MicGranted tracks) GraphDone)) w2 in
  let w4 := exec (task disconnect) w3 in
  log w3 = log w ++ [AudioContextClose]
  ∧ this w3 = mkLiveManager None (Some tracks) (Some ()) (Some ()) 0 [CloseSession]
  ∧ log w4 = log w3 ++ [ProcessorDisconnect; InputSourceDisconnect]
               ++ map TrackStop tracks ++ [SessionClose]
  ∧ this w4 = newLiveManager.
Proof.
  intros Hnew Hrs w1 w2 w3 w4.
  destruct w as [m e n lg rs ps]; cbn [this reactions] in Hnew, Hrs; subst m rs.
  cbn [log].
  assert (Hw3 : w3 = mkWorld
            (mkLiveManager None (Some tracks) (Some ()) (Some ()) 0 [CloseSession])
            e n (lg ++ [AudioContextClose]) [] ps).
  { subst w3 w2 w1. unfold exec, task_bool, task, bind. cbn.
    by rewrite !app_nil_r. }
  subst w4. rewrite Hw3. unfold exec, task, bind. rewrite disconnect_run. cbn.
  repeat split. log_eq.
Qed.

Lemma disconnect_during_microphone_prompt_witness :
  let w := mkWorld newLiveManager demoEnv 0 [] [] [] in
  let w1 := exec (task_bool (connect_begin ContextCreated)) w in
  let w2 := exec (task disconnect) w1 in
  let w3 := exec (task (connect_resume (MicGranted [7%nat]) GraphDone)) w2 in
  let w4 := exec (task disconnect) w3 in
  log w3 = log w ++ [AudioContextClose]
  ∧ this w3 = mkLiveManager None (Some [7%nat]) (Some ()) (Some ()) 0 [CloseSession]
  ∧ log w4 = log w3 ++ [ProcessorDisconnect; InputSourceDisconnect]
               ++ map TrackStop [7%nat] ++ [SessionClose]
  ∧ this w4 = newLiveManager.
Proof.
  exact (disconnect_during_microphone_prompt (mkWorld newLiveManager demoEnv 0 [] [] [])
           [7%nat] eq_refl eq_refl).
Defined.

(** X6. [connect] called twice on the same manager overwrites the handles
    of the first connection: the [disconnect] that follows asks both
    sessions to close but stops only the tracks of the second microphone
    stream, so a track of the first stream that is not in the second is
    never stopped. *)
Theorem connect_twice_leaks_first_stream (w : World) (first second : list nat) :
  this w = newLiveManager →
  reactions w = [] →
  let w1 := exec (connect ContextCreated (MicGranted first) GraphDone) w in
  let w2 := exec (connect ContextCreated (MicGranted second) GraphDone) w1 in
  let w3 := exec (task disconnect) w2 in
  log w3 = log w ++ [ProcessorDisconnect; InputSourceDisconnect]
             ++ map TrackStop second
             ++ [AudioContextClose; SessionClose; SessionClose]
  ∧ this w3 = newLiveManager
  ∧ ∀ track, track ∉ second → TrackStop track ∉ drop (length (log w)) (log w3).
Proof.
  intros Hnew Hrs w1 w2 w3.
  assert (Hw3 : log w3 = log w ++ [ProcessorDisconnect; InputSourceDisconnect]
             ++ map TrackStop second
             ++ [AudioContextClose; SessionClose; SessionClose]
           ∧ this w3 = newLiveManager).
  { subst w3 w2 w1. rewrite (connect_done_run w first Hrs).
    rewrite connect_done_run by done. cbn. rewrite Hnew.
    unfold exec, task, bind. rewrite disconnect_run. cbn.
    split; [|done]. log_eq. }
  destruct Hw3 as [Hlog Hthis]. split; [exact Hlog|]. split; [exact Hthis|].
  intros track Hnot. rewrite Hlog, drop_app_length. intros Hin.
  apply elem_of_cons in Hin as [Heq|Hin]; [discriminate Heq|].
  apply elem_of_cons in Hin as [Heq|Hin]; [discriminate Heq|].
  apply elem_of_app in Hin as [Hin|Hin].
  - apply list_elem_of_fmap in Hin as (t & Heq & Hin). by injection Heq as ->.
  - repeat (apply elem_of_cons in Hin as [Heq|Hin]; [discriminate Heq|]).
    by apply elem_of_nil in Hin.
Qed.

Lemma connect_twice_leaks_first_stream_witness :
  let w := mkWorld newLiveManager demoEnv 0 [] [] [] in
  let w1 := exec (connect ContextCreated (MicGranted [7%nat]) GraphDone) w in
  let w2 := exec (connect ContextCreated (MicGranted [8%nat]) GraphDone) w1 in
  let w3 := exec (task disconnect) w2 in
  log w3 = log w ++ [ProcessorDisconnect; InputSourceDisconnect]
             ++ map TrackStop [8%nat]
             ++ [AudioContextClose; SessionClose; SessionClose]
  ∧ this w3 = newLiveManager
  ∧ ∀ track, track ∉ [8%nat] → TrackStop track ∉ drop (length (log w)) (log w3).
Proof.
  exact (connect_twice_leaks_first_stream (mkWorld newLiveManager demoEnv 0 [] [] [])
           [7%nat] [8%nat] eq_refl eq_refl).
Defined.

(** X7. A remote error reports the connection message before anything is
    released and emits [closed] after the teardown; the remote close that
    follows releases nothing a second time and only emits [closed] again. *)
Theorem remote_error_then_close (w : World) :
  reactions w = [] →
  let w1 := exec (task onerror) w in
  let w2 := exec (task onclose) w1 in
  log w1 = log w
      ++ [ConsoleError "Gemini Error:";
          OnError (lit "Error de conexi" ++ [243]
                     ++ lit "n con el servidor de IA. Verifique su red.")]
      ++ releases (this w) ++ [OnClose]
      ++ map (λ _, SessionClose) (cleanupFunctions (this w))
  ∧ this w1 = mkLiveManager None None None None (nextStartTime (this w)) []
  ∧ log w2 = log w1 ++ [OnClose]
  ∧ this w2 = this w1.
Proof.
  intros Hrs w1 w2.
  assert (Hw1 : w1 = mkWorld
            (mkLiveManager None None None None (nextStartTime (this w)) [])
            (env w) (reads w)
            (log w
               ++ [ConsoleError "Gemini Error:";
                   OnError (lit "Error de conexi" ++ [243]
                              ++ lit "n con el servidor de IA. Verifique su red.")]
               ++ releases (this w) ++ [OnClose]
               ++ map (λ _, SessionClose) (cleanupFunctions (this w)))
            [] (pending w)).
  { subst w1. unfold exec, task, onerror, bind. cbn [perform].
    rewrite disconnect_run. unfold perform, drain. cbn. rewrite Hrs. cbn.
    f_equal. log_eq. }
  subst w2. rewrite Hw1. unfold exec, task, onclose, bind.
  rewrite disconnect_run. unfold perform, drain. cbn.
  repeat split. log_eq.
Qed.

Lemma remote_error_then_close_witness :
  let w := demoWorld in
  let w1 := exec (task onerror) w in
  let w2 := exec (task onclose) w1 in
  log w1 = log w
      ++ [ConsoleError "Gemini Error:";
          OnError (lit "Error de conexi" ++ [243]
                     ++ lit "n con el servidor de IA. Verifique su red.")]
      ++ releases (this w) ++ [OnClose]
      ++ map (λ _, SessionClose) (cleanupFunctions (this w))
  ∧ this w1 = mkLiveManager None None None None (nextStartTime (this w)) []
  ∧ log w2 = log w1 ++ [OnClose]
  ∧ this w2 = this w1.
Proof. exact (remote_error_then_close demoWorld eq_refl). Defined.

(* ===================================================================== *)
(** ** Messages *)
(* ===================================================================== *)

(** X8. A tool call whose name is neither [analyzeProblem] nor
    [registerSupportTicket] is passed over: nothing is performed, no request
    is issued and no tool response is ever queued for it. *)
Theorem unknown_tool_call_ignored (w : World) (fc : FunctionCall) :
  fc_name fc ≠ lit "analyzeProblem" →
  fc_name fc ≠ lit "registerSupportTicket" →
  exec (onmessage (toolCallMessage fc)) w = w.
Proof.
  intros Ha Hr. unfold exec, onmessage, toolCallMessage, bind. cbn.
  unfold dispatch. rewrite !decide_False by done.
  by destruct w as [[] ? ? ? ? ?].
Qed.

Lemma unknown_tool_call_ignored_witness :
  exec (onmessage (toolCallMessage
          (mkFunctionCall (lit "call-3") (lit "AnalyzeProblem") ∅))) demoWorld
  = demoWorld.
Proof.
  apply unknown_tool_call_ignored; discriminate.
Defined.

(** X9. A message with audio handled by a manager without audio context, or
    a message whose audio data is the empty string, changes nothing: no
    clock is read, nothing is scheduled and the cursor stays. *)
Theorem audio_without_context_ignored (w : World) (data : jsstring) :
  audioContext (this w) = None ∨ data = [] →
  exec (onmessage (audioMessage data)) w = w.
Proof.
  destruct w as [[ctx str proc inp cur fns] e n lg rs ps]; cbn [this audioContext].
  unfold exec, onmessage, audioMessage, bind. cbn.
  intros [-> | ->]; [by destruct data|reflexivity].
Qed.

Lemma audio_without_context_ignored_witness :
  exec (onmessage (audioMessage (lit "AAAA"))) (exec disconnect demoWorld)
  = exec disconnect demoWorld.
Proof.
  apply audio_without_context_ignored. left. reflexivity.
Defined.

Lemma dispatch_cases (fc : FunctionCall) (w : World) :
  (fc_name fc = lit "analyzeProblem"
   ∧ dispatch fc w
     = (tt, mkWorld (this w) (env w) (reads w)
              (log w ++ [ConsoleLog "Analyzing problem:";
                         GenerateContent (TipsPrompt (fc_args fc !! "sistema")
                                            (fc_args fc !! "problemDescription"))])
              (reactions w ++ [SendToolResponse (analyzeAck fc)])
              (pending w ++ [AwaitTips (fc_args fc !! "sistema")])))
  ∨ (fc_name fc = lit "registerSupportTicket"
     ∧ dispatch fc w
       = (tt, mkWorld (this w) (env w) (S (S (reads w)))
                (log w ++ [OnTicketCreated (ticketOf w fc);
                           GenerateContent (EmailPrompt (ticketOf w fc))])
                (reactions w)
                (pending w ++ [AwaitEmail (ticketOf w fc) (fc_id fc) (fc_name fc)])))
  ∨ (fc_name fc ≠ lit "analyzeProblem" ∧ fc_name fc ≠ lit "registerSupportTicket"
     ∧ dispatch fc w = (tt, w)).
Proof.
  destruct (decide (fc_name fc = lit "analyzeProblem")) as [Ha|Ha].
  { left. split; [done|]. by apply dispatch_analyze. }
  destruct (decide (fc_name fc = lit "registerSupportTicket")) as [Hr|Hr].
  { right; left. split; [done|]. by apply dispatch_register. }
  right; right. repeat split; [done..|].
  unfold dispatch. by rewrite !decide_False.
Qed.

Lemma sameSession_refl (w : World) : sameSession w w.
Proof. by repeat split. Qed.

Lemma sameSession_trans (w1 w2 w3 : World) :
  sameSession w1 w2 → sameSession w2 w3 → sameSession w1 w3.
Proof.
  intros (A1 & A2 & A3 & A4 & A5 & A6 & A7 & A8) (B1 & B2 & B3 & B4 & B5 & B6 & B7 & B8).
  repeat split; try congruence; by etrans.
Qed.

Lemma dispatch_sameSession (fc : FunctionCall) (w : World) :
  sameSession w (exec (dispatch fc) w).
Proof.
  unfold exec.
  destruct (dispatch_cases fc w) as [[_ ->]|[[_ ->]|(_ & _ & ->)]]; cbn;
    repeat split; try apply prefix_app_r; done.
Qed.

Lemma forEach_dispatch_sameSession (fcs : list FunctionCall) (w : World) :
  sameSession w (exec (forEach dispatch fcs) w).
Proof.
  revert w. induction fcs as [|fc fcs IH]; intros w.
  - apply sameSession_refl.
  - cbn [forEach]. rewrite exec_seq.
    eapply sameSession_trans; [apply dispatch_sameSession|apply IH].
Qed.

Lemma audio_branch_sameSession (msg : LiveServerMessage) (w : World) :
  sameSession w
    (exec (let* m := getThis in
           if truthy (audioData msg) && bool_decide (is_Some (audioContext m))
           then handleAudio (orEmpty (audioData msg))
           else ret tt) w).
Proof.
  destruct w as [[ctx str proc inp cur fns] e n lg rs ps].
  unfold exec, bind, getThis. cbn.
  destruct (truthy (audioData msg) && bool_decide (is_Some ctx)); cbn.
  - repeat split; cbn; try done.
    rewrite <- app_assoc. apply prefix_app_r. done.
  - apply sameSession_refl.
Qed.

Lemma interruption_branch_sameSession (msg : LiveServerMessage) (w : World) :
  sameSession w (exec (if interrupted msg then handleInterruption else ret tt) w).
Proof.
  destruct (interrupted msg); [|apply sameSession_refl].
  rewrite handleInterruption_run.
  destruct w as [[[u|] str proc inp cur fns] e n lg rs ps]; by repeat split.
Qed.

(** X10. No message acquires or releases anything: whatever it carries,
    [onmessage] leaves the four handles, the cleanup list and the
    environment as they were, and only adds to the log and to the pending
    requests. *)
Theorem onmessage_keeps_session (msg : LiveServerMessage) (w : World) :
  sameSession w (exec (onmessage msg) w).
Proof.
  unfold onmessage. rewrite !exec_seq.
  eapply sameSession_trans; [|apply interruption_branch_sameSession].
  eapply sameSession_trans; [|apply audio_branch_sameSession].
  destruct (toolCall msg) as [fcs|].
  - apply forEach_dispatch_sameSession.
  - apply sameSession_refl.
Qed.








(* ===================================================================== *)
(** ** More on the playback cursor *)
(* ===================================================================== *)

Lemma Qmax_cursor (cursor now : Q) : (now <= cursor)%Q → Qmax cursor now = cursor.
Proof.
  intros Hle. unfold Qmax, GenericMinMax.gmax.
  destruct (cursor ?= now)%Q eqn:Hcmp; try reflexivity.
  apply Qlt_alt in Hcmp. lra.
Qed.

Lemma spec_schedule_timely (cursor : Q) (segments : list (Q * Q)) :
  timely cursor segments →
  spec_schedule cursor segments = backToBack cursor (map snd segments)
  ∧ spec_cursor cursor segments = fold_left Qplus (map snd segments) cursor.
Proof.
  revert cursor. induction segments as [|[now d] rest IH]; intros cursor; cbn.
  - done.
  - intros [Hnow Hrest]. rewrite (Qmax_cursor cursor now Hnow).
    destruct (IH _ Hrest) as [-> ->]. done.
Qed.

Lemma arrivals_snd (e : Env) (tick : nat) (segments : list jsstring) :
  map snd (arrivals e tick segments) = map (bufferDuration e) segments.
Proof.
  revert tick. induction segments as [|data rest IH]; intros tick; cbn; [done|].
  by rewrite IH.
Qed.

(** X12. Playback without gaps. When every segment after the first is
    handled before the cursor has been reached by the clock, each segment
    starts exactly where the one before it ends: the starts are the first
    start plus the durations played so far, and the cursor ends at the first
    start plus all the durations. *)
Theorem playback_back_to_back_when_timely
    (w : World) (first : jsstring) (others : list jsstring) :
  is_Some (audioContext (this w)) →
  reactions w = [] →
  Forall (λ data, data ≠ []) (first :: others) →
  let e := env w in
  let start := Qmax (nextStartTime (this w)) (currentTime e (reads w)) in
  let durations := map (bufferDuration e) (first :: others) in
  timely (start + bufferDuration e first) (arrivals e (S (reads w)) others) →
  let w' := exec (forEach (λ data, task (onmessage (audioMessage data)))
                    (first :: others)) w in
  log w' = log w ++ startEffects (backToBack start durations)
  ∧ nextStartTime (this w') = fold_left Qplus durations start.
Proof.
  intros Hctx Hrs Hne e start durations Htimely w'.
  subst w'. rewrite (audio_run w (first :: others) Hctx Hrs Hne). cbn.
  destruct (spec_schedule_timely _ _ Htimely) as [Hsched Hcur].
  fold e. fold start. rewrite Hsched, Hcur.
  by rewrite arrivals_snd.
Qed.

Lemma playback_back_to_back_when_timely_witness :
  let w := mkWorld (mkLiveManager (Some ()) None None None 100 []) demoEnv 0 [] [] [] in
  let w' := exec (forEach (λ data, task (onmessage (audioMessage data)))
                    [lit "AAAA"; lit "BBBB"; lit "CC"]) w in
  log w' = log w ++ startEffects (backToBack (Qmax 100 5) [2; 2; 2]%Q)
  ∧ nextStartTime (this w') = fold_left Qplus [2; 2; 2]%Q (Qmax 100 5).
Proof.
  apply (playback_back_to_back_when_timely
           (mkWorld (mkLiveManager (Some ()) None None None 100 []) demoEnv 0 [] [] [])
           (lit "AAAA") [lit "BBBB"; lit "CC"]).
  - by eexists.
  - reflexivity.
  - repeat constructor; discriminate.
  - cbn. repeat split; discriminate.
Defined.

(** X13. After an interruption the next segment no longer waits for what was
    scheduled before: with a clock that does not run backwards it starts at
    the clock reading of its own handling, so it starts before the end of
    any audio that was scheduled to last beyond that reading. *)
Theorem interruption_then_audio_starts_now (w : World) (data : jsstring) :
  is_Some (audioContext (this w)) →
  reactions w = [] →
  data ≠ [] →
  let interruptedAt := currentTime (env w) (reads w) in
  let now := currentTime (env w) (S (reads w)) in
  (interruptedAt <= now)%Q →
  let w1 := exec (task (onmessage interruptionMessage)) w in
  let w2 := exec (task (onmessage (audioMessage data))) w1 in
  ∃ start : Q,
    log w2 = log w ++ [SourceStart start (bufferDuration (env w) data)]
    ∧ (start == now)%Q
    ∧ ((now < nextStartTime (this w))%Q → (start < nextStartTime (this w))%Q).
Proof.
  intros Hctx Hrs Hdata interruptedAt now Hclock w1 w2.
  assert (Hw1 : w1 = mkWorld
            (mkLiveManager (audioContext (this w)) (stream (this w))
               (processor (this w)) (inputSource (this w)) interruptedAt
               (cleanupFunctions (this w)))
            (env w) (S (reads w)) (log w) [] (pending w)).
  { subst w1 interruptedAt.
    destruct w as [[ctx str proc inp cur fns] e n lg rs ps]; cbn in *.
    destruct Hctx as [u ->]. subst rs.
    unfold exec, task, bind; cbn. by rewrite app_nil_r. }
  clearbody w1. subst w1 w2.
  rewrite audio_task by (cbn; done). cbn.
  exists (Qmax interruptedAt now). split; [done|].
  assert (Hmax : (Qmax interruptedAt now == now)%Q) by (by apply Q.max_r).
  split; [exact Hmax|]. intros Hlt. by rewrite Hmax.
Qed.

Lemma interruption_then_audio_starts_now_witness :
  let w := mkWorld (mkLiveManager (Some ()) None None None 100 []) demoEnv 0
             [SourceStart 98 2] [] [] in
  let w1 := exec (task (onmessage interruptionMessage)) w in
  let w2 := exec (task (onmessage (audioMessage (lit "AAAA")))) w1 in
  ∃ start : Q,
    log w2 = log w ++ [SourceStart start 2]
    ∧ (start == 10)%Q
    ∧ ((10 < 100)%Q → (start < 100)%Q).
Proof.
  apply (interruption_then_audio_starts_now
           (mkWorld (mkLiveManager (Some ()) None None None 100 []) demoEnv 0
              [SourceStart 98 2] [] [])
           (lit "AAAA")).
  - by eexists.
  - reflexivity.
  - discriminate.
  - discriminate.
Defined.

(* ===================================================================== *)
(** ** Requests that settle late *)
(* ===================================================================== *)

Lemma settle_run (w : World) (i : nat) (k : Pending) (response : GenResult) :
  pending w !! i = Some k →
  reactions w = [] →
  exec (settle i response) w
  = mkWorld (this w) (env w) (reads w) (log w ++ settleEffects k response) []
      (delete i (pending w)).
Proof.
  intros Hk Hrs. unfold exec, settle. rewrite Hk.
  destruct w as [m e n lg rs ps]; cbn in *. subst rs.
  destruct k as [system|t id name]; destruct response as [text|];
    unfold task, bind; cbn.
  - destruct (parseSteps (orEmpty text)) as [|step steps];
      destruct (decide _) as [Hlen|Hlen]; cbn in Hlen; try lia; cbn;
      f_equal; log_eq.
  - f_equal; log_eq.
  - f_equal; log_eq.
  - f_equal; log_eq.
Qed.

(** X14. [disconnect] does not cancel a pending request. When the request
    settles after the teardown its method goes on as if nothing had
    happened: the same events are emitted and the same tool response is
    sent as without the [disconnect], and the handles stay released. *)
Theorem settle_after_disconnect
    (w : World) (i : nat) (k : Pending) (response : GenResult) :
  pending w !! i = Some k →
  reactions w = [] →
  let torn := exec (task disconnect) w in
  log (exec (settle i response) w) = log w ++ settleEffects k response
  ∧ log (exec (settle i response) torn) = log torn ++ settleEffects k response
  ∧ this (exec (settle i response) torn)
    = mkLiveManager None None None None (nextStartTime (this w)) []
  ∧ pending (exec (settle i response) torn) = delete i (pending w).
Proof.
  intros Hk Hrs torn.
  assert (Htorn : torn = mkWorld
            (mkLiveManager None None None None (nextStartTime (this w)) [])
            (env w) (reads w)
            (log w ++ releases (this w)
               ++ map (λ _, SessionClose) (cleanupFunctions (this w)))
            [] (pending w)).
  { subst torn. unfold exec, task, bind. rewrite disconnect_run. cbn.
    rewrite Hrs. cbn. f_equal. log_eq. }
  rewrite (settle_run w i k response Hk Hrs).
  rewrite (settle_run torn i k response); rewrite Htorn; cbn; done.
Qed.

Lemma settle_after_disconnect_witness :
  let w := exec (task (onmessage (toolCallMessage demoRegister))) demoWorld in
  let k := AwaitEmail (ticketOf demoWorld demoRegister) (lit "call-2")
             (lit "registerSupportTicket") in
  let response := Fulfilled (Some (lit "Asunto: Falla")) in
  let torn := exec (task disconnect) w in
  log (exec (settle 0 response) w) = log w ++ settleEffects k response
  ∧ log (exec (settle 0 response) torn) = log torn ++ settleEffects k response
  ∧ this (exec (settle 0 response) torn)
    = mkLiveManager None None None None (nextStartTime (this w)) []
  ∧ pending (exec (settle 0 response) torn) = delete 0%nat (pending w).
Proof.
  exact (settle_after_disconnect
           (exec (task (onmessage (toolCallMessage demoRegister))) demoWorld) 0
           (AwaitEmail (ticketOf demoWorld demoRegister) (lit "call-2")
              (lit "registerSupportTicket"))
           (Fulfilled (Some (lit "Asunto: Falla"))) eq_refl eq_refl).
Defined.

(* ===================================================================== *)
(** ** More on the generated texts *)
(* ===================================================================== *)

Lemma takeWhile_dropWhile (p : N → bool) (s : jsstring) :
  takeWhile p s ++ dropWhile p s = s.
Proof.
  induction s as [|c s IH]; [done|]. cbn. destruct (p c); [|done].
  cbn. by rewrite IH.
Qed.

Lemma dropWhile_head (p : N → bool) (s : jsstring) (c : N) (r : jsstring) :
  dropWhile p s = c :: r → p c = false.
Proof.
  induction s as [|c' s IH]; [done|]. cbn.
  destruct (p c') eqn:Hp; [exact IH|]. intros [= <- _]. exact Hp.
Qed.

Lemma Forall_dropWhile (P : N → Prop) (p : N → bool) (s : jsstring) :
  Forall P s → Forall P (dropWhile p s).
Proof.
  intros Hs. rewrite <- (takeWhile_dropWhile p s) in Hs.
  by apply Forall_app in Hs as [_ Hs].
Qed.

Lemma Forall_takeWhile (p : N → bool) (s : jsstring) :
  Forall (λ c, p c = true) (takeWhile p s).
Proof.
  induction s as [|c s IH]; cbn; [constructor|].
  destruct (p c) eqn:Hp; constructor; done.
Qed.

Lemma Forall_trim (P : N → Prop) (s : jsstring) : Forall P s → Forall P (trim s).
Proof.
  intros Hs. unfold trim, trimEnd, trimStart.
  apply Forall_rev, Forall_dropWhile, Forall_rev, Forall_dropWhile, Hs.
Qed.

Lemma noOuterSpace_trim (s : jsstring) : noOuterSpace (trim s) = true.
Proof.
  unfold trim, trimEnd, trimStart.
  remember (dropWhile isWhiteSpace s) as t eqn:Et.
  destruct (dropWhile isWhiteSpace (rev t)) as [|l back] eqn:Hback; [done|].
  pose proof (dropWhile_head _ _ _ _ Hback) as Hl.
  pose proof (takeWhile_dropWhile isWhiteSpace (rev t)) as Hsplit.
  rewrite Hback in Hsplit.
  assert (Ht : t = rev (l :: back) ++ rev (takeWhile isWhiteSpace (rev t))).
  { rewrite <- rev_app_distr, Hsplit. by rewrite rev_involutive. }
  cbn [rev] in *. unfold noOuterSpace.
  destruct (rev back ++ [l]) as [|c front] eqn:Hfront.
  { by destruct (rev back). }
  rewrite <- Hfront, last_snoc, Hl.
  cbn [app] in Ht. rewrite Ht in Et. symmetry in Et.
  by rewrite (dropWhile_head _ _ _ _ Et).
Qed.

(** X15. A fulfilled draft request that brings no text still ends well: the
    draft handed to [email-ready] has the synthesised subject and an empty
    body, and the tool response reports the ticket as registered with its
    draft. *)
Theorem draft_without_text (w : World) (fc : FunctionCall) (text : option jsstring) :
  fc_name fc = lit "registerSupportTicket" →
  reactions w = [] →
  truthy text = false →
  let w1 := exec (task (onmessage (toolCallMessage fc))) w in
  let w2 := exec (settle (length (pending w)) (Fulfilled text)) w1 in
  let t := ticketOf w fc in
  let id := makeTicketId (Math_random (env w) (S (reads w))) in
  log w2 = log w1
    ++ [OnEmailReady
          (mkEmailDraft (lit "Ticket " ++ id ++ lit " - Soporte " ++ municipalidad t) []);
        SendToolResponse (mkFunctionResponse (fc_id fc) (fc_name fc)
          (lit "Ticket registrado exitosamente. ID del Ticket: " ++ id
             ++ lit ". Borrador de correo generado."))].
Proof.
  intros Hname Hrs Htext w1 w2 t id.
  destruct (register_run w fc (Fulfilled text) Hname Hrs) as [_ Hw2].
  fold w1 w2 t in Hw2. rewrite Hw2. cbn.
  replace (orEmpty text) with (@nil N) by (by destruct text as [[|]|]).
  reflexivity.
Qed.

Lemma draft_without_text_witness :
  let w := demoWorld in
  let fc := demoRegister in
  let w1 := exec (task (onmessage (toolCallMessage fc))) w in
  let w2 := exec (settle (length (pending w)) (Fulfilled None)) w1 in
  let t := ticketOf w fc in
  let id := makeTicketId (Math_random (env w) (S (reads w))) in
  log w2 = log w1
    ++ [OnEmailReady
          (mkEmailDraft (lit "Ticket " ++ id ++ lit " - Soporte " ++ municipalidad t) []);
        SendToolResponse (mkFunctionResponse (fc_id fc) (fc_name fc)
          (lit "Ticket registrado exitosamente. ID del Ticket: " ++ id
             ++ lit ". Borrador de correo generado."))].
Proof.
  exact (draft_without_text demoWorld demoRegister None eq_refl eq_refl eq_refl).
Defined.

(** X16. When the text begins with the marker, the subject of the draft is
    a single line without white space at either end: it holds no line
    terminator, whatever follows the marker. The body has no white space at
    either end. *)
Theorem draft_subject_single_line (uiTicket : TicketData) (fullText : jsstring) :
  is_Some (stripPrefix_ci (lit "Asunto:") fullText) →
  let draft := parseEmailDraft uiTicket fullText in
  Forall (λ c, isLineTerminator c = false) (subject draft)
  ∧ noOuterSpace (subject draft) = true
  ∧ noOuterSpace (body draft) = true.
Proof.
  intros [rest Hrest] draft. subst draft.
  unfold parseEmailDraft, matchSubject. rewrite Hrest. cbn [subject body].
  split; [|split; apply noOuterSpace_trim].
  apply Forall_trim.
  eapply Forall_impl; [apply (Forall_takeWhile notLineTerminator)|].
  intros c Hc. by apply negb_true_iff in Hc.
Qed.

Lemma draft_subject_single_line_witness :
  let draft := parseEmailDraft exampleTicket
                 (lit "asunto:" ++ [10; 10] ++ lit "  Falla  " ++ [13; 10] ++ lit "Hola ") in
  Forall (λ c, isLineTerminator c = false) (subject draft)
  ∧ noOuterSpace (subject draft) = true
  ∧ noOuterSpace (body draft) = true.
Proof.
  apply draft_subject_single_line. by eexists.
Defined.

(** X17. When the text begins with the marker but the marker line is not
    ended by a line feed (the text ends there, or the line ends with a
    carriage return or another line terminator), nothing is removed: the
    body is the whole text, trimmed, marker line included. *)
Theorem draft_keeps_unterminated_marker_line
    (uiTicket : TicketData) (fullText rest : jsstring) :
  stripPrefix_ci (lit "Asunto:") fullText = Some rest →
  (∀ after, dropWhile notLineTerminator rest ≠ 10 :: after) →
  body (parseEmailDraft uiTicket fullText) = trim fullText.
Proof.
  intros Hrest Hline.
  unfold parseEmailDraft, matchSubject, replaceSubjectLine. rewrite Hrest. cbn [body].
  destruct (dropWhile notLineTerminator rest) as [|c after] eqn:Hdrop; [done|].
  destruct (N.eqb_spec c 10) as [->|_]; [|done].
  by destruct (Hline after).
Qed.

Lemma draft_keeps_unterminated_marker_line_witness :
  body (parseEmailDraft exampleTicket
          (lit "Asunto: Falla" ++ [13; 10] ++ lit "Estimado..." ++ [13; 10]))
  = trim (lit "Asunto: Falla" ++ [13; 10] ++ lit "Estimado..." ++ [13; 10]).
Proof.
  apply (draft_keeps_unterminated_marker_line exampleTicket _
           (lit " Falla" ++ [13; 10] ++ lit "Estimado..." ++ [13; 10]));
    [reflexivity|]. cbn. discriminate.
Defined.

(** With carriage returns the subject line stays in the body. *)
Example draft_crlf_demo :
  parseEmailDraft exampleTicket
    (lit "Asunto: Falla" ++ [13; 10] ++ lit "Estimado..." ++ [13; 10])
  = mkEmailDraft (lit "Falla")
      (lit "Asunto: Falla" ++ [13; 10] ++ lit "Estimado...").
Proof. reflexivity. Qed.

Lemma split_nl_no_linefeed (s : jsstring) :
  Forall (Forall (λ c, c ≠ 10)) (split_nl s).
Proof.
  induction s as [|c s IH]; cbn.
  - by repeat constructor.
  - destruct (N.eqb_spec c 10) as [->|Hc].
    + by constructor.
    + destruct (split_nl s) as [|line lines]; [by repeat constructor|].
      inversion IH as [|? ? Hline Hlines]; subst.
      constructor; [by constructor|done].
Qed.

Lemma Forall_stripBullet (P : N → Prop) (line : jsstring) :
  Forall P line → Forall P (stripBullet line).
Proof.
  destruct line as [|c r]; [done|]. cbn. intros Hline.
  destruct (isBullet c); [|done].
  inversion Hline; subst. by apply Forall_dropWhile.
Qed.

(** X18. Every step taken from a tips text is a piece of one line: it holds
    no line feed and has no white space at either end. *)
Theorem tips_steps_clean (text : jsstring) :
  Forall (λ step, noOuterSpace step = true ∧ Forall (λ c, c ≠ 10) step)
    (parseSteps text).
Proof.
  rewrite parseSteps_spec.
  pose proof (split_nl_no_linefeed text) as Hlines.
  eapply Forall_impl; [apply spec_steps_from_lines|].
  intros step (_ & line & Hline & ->). split; [apply noOuterSpace_trim|].
  apply Forall_trim, Forall_stripBullet.
  rewrite Forall_forall in Hlines. by apply Hlines.
Qed.

Lemma spec_steps_nil (limit : nat) (lines : list jsstring) :
  spec_steps (S limit) lines = []
  ↔ Forall (λ line, trim (stripBullet line) = []) lines.
Proof.
  induction lines as [|line rest IH]; cbn.
  - split; [constructor|done].
  - destruct (trim (stripBullet line)) as [|c s] eqn:Hclean.
    + rewrite IH. split.
      * intros Hrest. by constructor.
      * intros Hall. by inversion Hall.
    + split; [done|]. intros Hall. inversion Hall; congruence.
Qed.

(** X19. A tips text gives no step, and so no [solutions-ready] event,
    exactly when every one of its lines is empty once its bullet marker is
    stripped and it is trimmed. *)
Theorem tips_without_steps (system : option jsstring) (text : jsstring) (w : World) :
  let w' := exec (generateTroubleshootingTips_resume system (Fulfilled (Some text))) w in
  (parseSteps text = []
   ↔ Forall (λ line, trim (stripBullet line) = []) (split_nl text))
  ∧ (log w' = log w ↔ parseSteps text = []).
Proof.
  intros w'. split.
  - rewrite parseSteps_spec. apply spec_steps_nil.
  - subst w'. rewrite tips_resume_log.
    destruct (parseSteps text) as [|step steps].
    + by rewrite app_nil_r.
    + split; [|done]. intros Heq.
      apply (f_equal length) in Heq. rewrite length_app in Heq. cbn in Heq. lia.
Qed.

Lemma tips_without_steps_witness :
  parseSteps (lit "-" ++ [10] ++ lit "  " ++ [10] ++ lit "* ") = []
  ∧ log (exec (generateTroubleshootingTips_resume None
                 (Fulfilled (Some (lit "-" ++ [10] ++ lit "  " ++ [10] ++ lit "* "))))
           demoWorld) = log demoWorld.
Proof.
  destruct (tips_without_steps None (lit "-" ++ [10] ++ lit "  " ++ [10] ++ lit "* ")
              demoWorld) as [Hnil Hlog].
  assert (Hsteps : parseSteps (lit "-" ++ [10] ++ lit "  " ++ [10] ++ lit "* ") = []).
  { apply Hnil. repeat constructor. }
  split; [exact Hsteps|]. apply Hlog, Hsteps.
Defined.

(* ===================================================================== *)
(** ** Capture volume and the visualiser *)
(* ===================================================================== *)

Lemma fold_left_add_bounds (bytes : list Z) (acc : Z) :
  Forall (λ b, 0 ≤ b ≤ 255)%Z bytes →
  (acc ≤ fold_left Z.add bytes acc ≤ acc + 255 * Z.of_nat (length bytes))%Z.
Proof.
  revert acc. induction bytes as [|b bytes IH]; intros acc Hall; cbn [fold_left length].
  - lia.
  - inversion Hall as [|? ? Hb Hrest]; subst.
    specialize (IH (acc + b)%Z Hrest). lia.
Qed.

(** X21. The volume handed to [onVolumeChange] lies between 0 and 1 for
    every non-empty array of bytes; on an empty array the reduction has no
    value (it throws). *)
Theorem capture_volume_normalised (dataArray : list Z) :
  dataArray ≠ [] →
  Forall (λ b, 0 ≤ b ≤ 255)%Z dataArray →
  ∃ volume : Q,
    captureVolume dataArray = Some volume ∧ (0 <= volume)%Q ∧ (volume <= 1)%Q.
Proof.
  intros Hne Hall. destruct dataArray as [|first rest]; [done|].
  inversion Hall as [|? ? Hfirst Hrest]; subst.
  pose proof (fold_left_add_bounds rest first Hrest) as Hsum.
  unfold captureVolume, reduceSum.
  set (sum := fold_left Z.add rest first) in *.
  set (len := Z.of_nat (length (first :: rest))).
  assert (Hlen : (len = 1 + Z.of_nat (length rest))%Z) by (subst len; cbn [length]; lia).
  assert (Hpos : (0 < inject_Z len)%Q).
  { change 0%Q with (inject_Z 0). rewrite <- Zlt_Qlt. lia. }
  eexists; split; [reflexivity|]. split.
  - apply Qle_shift_div_l; [reflexivity|]. apply Qle_shift_div_l; [exact Hpos|].
    change (0 * 255 * inject_Z len)%Q with (inject_Z 0 * inject_Z 255 * inject_Z len)%Q.
    rewrite <- !inject_Z_mult, <- Zle_Qle. lia.
  - apply Qle_shift_div_r; [reflexivity|]. apply Qle_shift_div_r; [exact Hpos|].
    change (1 * 255 * inject_Z len)%Q with (inject_Z 1 * inject_Z 255 * inject_Z len)%Q.
    rewrite <- !inject_Z_mult, <- Zle_Qle. lia.
Qed.

Lemma capture_volume_normalised_witness :
  ∃ volume : Q,
    captureVolume [0; 255; 128; 64]%Z = Some volume ∧ (0 <= volume)%Q ∧ (volume <= 1)%Q.
Proof.
  apply capture_volume_normalised; [discriminate|].
  repeat constructor; lia.
Defined.

Example capture_volume_demo :
  captureVolume [] = None
  ∧ captureVolume [255; 255]%Z = Some ((inject_Z 510 / inject_Z 2) / 255)%Q
  ∧ captureVolume [0; 0; 0]%Z = Some ((inject_Z 0 / inject_Z 3) / 255)%Q.
Proof. repeat split. Qed.

(** X22. For a volume between 0 and 1 the visualiser draws inside its
    canvas: for each of the three rings and any value of the sine, the
    radius before the clamp lies between 25 and 125, so the clamp at 0 does
    not act and the ring stays below the distance from the centre to the
    edge; the opacity before the clamp is positive and at most 6/10, so the
    clamp at 0 does not act either; the core is never larger than the
    innermost ring. *)
Theorem visualiser_within_canvas (volume sine : Q) (i : Z) :
  (0 <= volume)%Q → (volume <= 1)%Q →
  (-1 <= sine)%Q → (sine <= 1)%Q →
  (0 ≤ i ≤ 2)%Z →
  (25 <= radiusBeforeClamp volume i sine)%Q
  ∧ (radiusBeforeClamp volume i sine <= 125)%Q
  ∧ (ringRadius volume i sine == radiusBeforeClamp volume i sine)%Q
  ∧ (ringRadius volume i sine < canvasHalf)%Q
  ∧ (0 < opacityBeforeClamp volume i)%Q
  ∧ (opacityBeforeClamp volume i <= 6 # 10)%Q
  ∧ (ringOpacity volume i == opacityBeforeClamp volume i)%Q
  ∧ (coreRadius volume <= ringRadius volume 0 sine)%Q.
Proof.
  intros Hv0 Hv1 Hs0 Hs1 Hi.
  assert (Hcases : i = 0%Z ∨ i = 1%Z ∨ i = 2%Z) by lia.
  assert (Hradius : ∀ j : Z, (0 ≤ j ≤ 2)%Z →
            (ringRadius volume j sine == radiusBeforeClamp volume j sine)%Q).
  { intros j Hj. unfold ringRadius, radiusBeforeClamp. apply Q.max_r.
    assert (Hjc : j = 0%Z ∨ j = 1%Z ∨ j = 2%Z) by lia.
    destruct Hjc as [-> | [-> | ->]]; unfold inject_Z; lra. }
  assert (Hopacity : (ringOpacity volume i == opacityBeforeClamp volume i)%Q).
  { unfold ringOpacity, opacityBeforeClamp. apply Q.max_r.
    destruct Hcases as [-> | [-> | ->]]; unfold inject_Z; lra. }
  pose proof (Hradius i Hi) as Hri.
  pose proof (Hradius 0%Z ltac:(lia)) as Hr0.
  assert (Hhalf : (canvasHalf == 150)%Q) by reflexivity.
  rewrite Hri, Hopacity, Hr0, Hhalf.
  unfold coreRadius, radiusBeforeClamp, opacityBeforeClamp.
  destruct Hcases as [-> | [-> | ->]]; unfold inject_Z; repeat split; lra.
Qed.

Lemma visualiser_within_canvas_witness :
  (25 <= radiusBeforeClamp 1 2 1)%Q
  ∧ (radiusBeforeClamp 1 2 1 <= 125)%Q
  ∧ (ringRadius 1 2 1 == radiusBeforeClamp 1 2 1)%Q
  ∧ (ringRadius 1 2 1 < canvasHalf)%Q
  ∧ (0 < opacityBeforeClamp 1 2)%Q
  ∧ (opacityBeforeClamp 1 2 <= 6 # 10)%Q
  ∧ (ringOpacity 1 2 == opacityBeforeClamp 1 2)%Q
  ∧ (coreRadius 1 <= ringRadius 1 0 1)%Q.
Proof.
  apply visualiser_within_canvas; try discriminate. lia.
Defined.

(* ===================================================================== *)
(** ** Where the marker is recognised *)
(* ===================================================================== *)

Lemma stripPrefix_ci_app (pat marker rest : jsstring) :
  stripPrefix_ci pat marker = Some [] →
  stripPrefix_ci pat (marker ++ rest) = Some rest.
Proof.
  revert marker. induction pat as [|p pat IH]; intros marker.
  - cbn. by intros [= ->].
  - destruct marker as [|c marker]; [done|]. cbn.
    destruct (eq_ci p c); [apply IH|done].
Qed.

(** X23. The marker is recognised in any letter case, and only at the very
    first character of the text: a text written with another casing of
    [Asunto:] gets the same subject as with the marker itself, while a text
    whose first character is neither [A] nor [a] (a leading space, say) gets
    the synthesised subject and keeps its whole text as the body. *)
Theorem draft_marker_case_and_position
    (uiTicket : TicketData) (marker rest : jsstring) (first : N) (text : jsstring) :
  stripPrefix_ci (lit "Asunto:") marker = Some [] →
  first ≠ 65 → first ≠ 97 →
  subject (parseEmailDraft uiTicket (marker ++ rest))
    = subject (parseEmailDraft uiTicket (lit "Asunto:" ++ rest))
  ∧ parseEmailDraft uiTicket (first :: text)
    = mkEmailDraft
        (lit "Ticket " ++ interpolate (ticketId uiTicket)
           ++ lit " - Soporte " ++ municipalidad uiTicket)
        (first :: text).
Proof.
  intros Hmarker HA Ha. split.
  - unfold parseEmailDraft, matchSubject.
    rewrite (stripPrefix_ci_app _ marker rest Hmarker).
    by rewrite (stripPrefix_ci_app (lit "Asunto:") (lit "Asunto:") rest eq_refl).
  - unfold parseEmailDraft, matchSubject.
    assert (Hno : stripPrefix_ci (lit "Asunto:") (first :: text) = None).
    { change (lit "Asunto:") with (65 :: lit "sunto:"). cbn [stripPrefix_ci].
      assert (Hci : eq_ci 65 first = false); [|by rewrite Hci].
      assert (E1 : (first =? 65) = false) by (by apply N.eqb_neq).
      assert (E2 : (first =? 65 + 32) = false) by (apply N.eqb_neq; exact Ha).
      unfold eq_ci. rewrite E1, E2. reflexivity. }
    by rewrite Hno.
Qed.

Lemma draft_marker_case_and_position_witness :
  subject (parseEmailDraft exampleTicket (lit "ASUNTO:" ++ lit " Falla"))
    = subject (parseEmailDraft exampleTicket (lit "Asunto:" ++ lit " Falla"))
  ∧ parseEmailDraft exampleTicket (32 :: lit "Asunto: Falla")
    = mkEmailDraft
        (lit "Ticket " ++ interpolate (ticketId exampleTicket)
           ++ lit " - Soporte " ++ municipalidad exampleTicket)
        (32 :: lit "Asunto: Falla").
Proof.
  apply draft_marker_case_and_position; [reflexivity|discriminate..].
Defined.

(* ===================================================================== *)
(** ** Calls received without arguments *)
(* ===================================================================== *)

(** An [analyzeProblem] call received without an [args] object is still
    acknowledged, once, but no tips request is issued for it. *)
Example analyze_without_args_demo :
  let run := onmessageReceived
               (Some [mkReceivedCall (lit "call-1") (lit "analyzeProblem") None])
               None false demoWorld in
  run.1 = ThrewTypeError
  ∧ log (exec drain run.2)
    = [ConsoleLog "Analyzing problem:";
       SendToolResponse (mkFunctionResponse (lit "call-1") (lit "analyzeProblem")
         (lit "Solutions generated and displayed on screen."))]
  ∧ pending run.2 = [].
Proof. repeat split. Qed.
